(** * AI-ECO-MAP: the location-search and route-selection core

    A shallow embedding of the two stateful pieces of the front end,

    - [LocationInput]  (components/LocationInput.tsx): the debounced
      address search with its coordinate short-circuit, and
    - [App]            (App.tsx): the planning session and the selected
      route,

    as event-driven state machines.  React state variables become record
    fields, every event-loop turn (a DOM event, a timer, the resolution of
    an awaited promise) becomes one [step], and the work that is suspended
    between turns (an armed timer, a request awaiting its response) is
    part of the state. *)

From Stdlib Require Import Bool List ZArith Lia String Ascii.
From Stdlib Require Import Numbers.DecimalString Permutation.
Import ListNotations.
Open Scope string_scope.

(** ** The JavaScript runtime *)

(** Strings are sequences of code units; an [ascii] stands for one code
    unit below 256, so that [String.length] is JavaScript's [.length]. *)

Module JS.

(** ToBoolean on a string: only the empty string is falsy. *)
Definition truthy (s : string) : bool :=
  match s with
  | EmptyString => false
  | String _ _ => true
  end.

(** [x || d] where [x] is a string or [undefined]. *)
Definition or_else (x : option string) (d : string) : string :=
  match x with
  | Some s => if truthy s then s else d
  | None => d
  end.

(** Numbers.  The code only parses them, prints them in template
    literals and compares them, so the double-precision arithmetic of
    the engine is kept behind an interface. *)
Class Numbers := {
  number : Type;
  parseFloat : string -> number;
  toString : number -> string;
  ofZ : Z -> number;
  geb : number -> number -> bool;
  leb : number -> number -> bool
}.

End JS.

(** The numbers that are compared with integer constants, used as an
    array index or tested for truth.  A finite double is a decimal
    fraction [m / 10^k]; the type has more of them than there are doubles,
    which is harmless for what holds of every one. *)
Module Num.

Inductive t := NaN | PosInf | NegInf | Fin (m : Z) (k : nat).

Definition scale (k : nat) : Z := 10 ^ Z.of_nat k.

(** [x >= c], [x <= c] and [x === c] for an integer constant [c]. *)
Definition geZ (x : t) (c : Z) : bool :=
  match x with
  | NaN | NegInf => false
  | PosInf => true
  | Fin m k => (c * scale k <=? m)%Z
  end.

Definition leZ (x : t) (c : Z) : bool :=
  match x with
  | NaN | PosInf => false
  | NegInf => true
  | Fin m k => (m <=? c * scale k)%Z
  end.

Definition eqZ (x : t) (c : Z) : bool :=
  match x with
  | Fin m k => (m =? c * scale k)%Z
  | _ => false
  end.

(** [x <= y] *)
Definition le (x y : t) : bool :=
  match x, y with
  | NaN, _ | _, NaN => false
  | NegInf, _ | _, PosInf => true
  | PosInf, _ | _, NegInf => false
  | Fin m1 k1, Fin m2 k2 => (m1 * scale k2 <=? m2 * scale k1)%Z
  end.

(** The array index a number denotes as a property key, if any: a
    non-negative integer. *)
Definition index (x : t) : option nat :=
  match x with
  | Fin m k =>
      if ((m mod scale k =? 0) && (0 <=? m))%Z
      then Some (Z.to_nat (m / scale k))
      else None
  | _ => None
  end.

Definition ofZ (z : Z) : t := Fin z 0.

End Num.

(** The values a parsed response body is made of.  A handler that reads
    a field of an untyped body gets any of them.  Arrays and objects are
    only passed on, so they are kept as their JSON text. *)
Module JSON.

Inductive value :=
| Null
| Bool (b : bool)
| Number (x : Num.t)
| Str (s : string)
| Array (json : string)
| Object (json : string).

(** ToBoolean: [null], [false], zero, NaN and the empty string are
    falsy; every array and every object is truthy. *)
Definition truthy (v : value) : bool :=
  match v with
  | Null => false
  | Bool b => b
  | Number Num.NaN => false
  | Number (Num.Fin m _) => negb (m =? 0)%Z
  | Number _ => true
  | Str s => JS.truthy s
  | Array _ | Object _ => true
  end.

(** [x || d] where [x] is a value or [undefined]. *)
Definition or_else (x : option value) (d : value) : value :=
  match x with
  | Some v => if truthy v then v else d
  | None => d
  end.

End JSON.

(** ** Regular expressions

    The fragment of JavaScript regular expressions that the coordinate
    pattern uses: a sequence of quantified character classes, some of
    them inside capturing groups, anchored at both ends.  Quantifiers are
    greedy and give characters back on failure, as the engine does. *)

Module Regex.

Inductive cls := Lit (c : ascii) | Digit | Space.

Definition is_digit (c : ascii) : bool :=
  let n := nat_of_ascii c in (48 <=? n)%nat && (n <=? 57)%nat.

(** [\s] restricted to code units below 256. *)
Definition is_space (c : ascii) : bool :=
  let n := nat_of_ascii c in
  ((9 <=? n)%nat && (n <=? 13)%nat) || (n =? 32)%nat || (n =? 160)%nat.

Definition mem (k : cls) (c : ascii) : bool :=
  match k with
  | Lit a => Ascii.eqb a c
  | Digit => is_digit c
  | Space => is_space c
  end.

Inductive quant := One | Opt | Star | Plus.

Definition atom : Type := cls * quant.

Inductive piece := Plain (a : list atom) | Group (a : list atom).

Definition snoc (acc : string) (c : ascii) : string :=
  acc ++ String c EmptyString.

Section Matcher.
Context {R : Type}.

(** The continuation receives the text consumed so far in the current
    piece and the remaining input. *)
Definition cont : Type := string -> string -> option R.

Definition one (k : cls) (acc s : string) (f : cont) : option R :=
  match s with
  | String c s' => if mem k c then f (snoc acc c) s' else None
  | EmptyString => None
  end.

Definition opt (k : cls) (acc s : string) (f : cont) : option R :=
  match s with
  | String c s' =>
      if mem k c then
        match f (snoc acc c) s' with
        | Some r => Some r
        | None => f acc s
        end
      else f acc s
  | EmptyString => f acc s
  end.

Fixpoint star (k : cls) (acc s : string) (f : cont) : option R :=
  match s with
  | String c s' =>
      if mem k c then
        match star k (snoc acc c) s' f with
        | Some r => Some r
        | None => f acc s
        end
      else f acc s
  | EmptyString => f acc s
  end.

Definition plus (k : cls) (acc s : string) (f : cont) : option R :=
  one k acc s (fun acc' s' => star k acc' s' f).

Definition m_atom (a : atom) (acc s : string) (f : cont) : option R :=
  match snd a with
  | One => one (fst a) acc s f
  | Opt => opt (fst a) acc s f
  | Star => star (fst a) acc s f
  | Plus => plus (fst a) acc s f
  end.

Fixpoint m_seq (ps : list atom) (acc s : string) (f : cont) : option R :=
  match ps with
  | [] => f acc s
  | a :: ps' => m_atom a acc s (fun acc' s' => m_seq ps' acc' s' f)
  end.
End Matcher.

(** A successful match called its continuation [f] on a remaining input
    at least [n] characters shorter than [s]. *)
Definition reaches {R : Type} (f : @cont R) (n : nat) (s : string) (r : R)
  : Prop :=
  exists acc' s',
    f acc' s' = Some r /\ String.length s' + n <= String.length s.

(** [^ p1 p2 ... $]: the captures of the groups, in order. *)
Fixpoint m_pieces (ps : list piece) (caps : list string) (s : string)
  : option (list string) :=
  match ps with
  | [] => match s with EmptyString => Some caps | _ => None end
  | Plain a :: ps' => m_seq a "" s (fun _ s' => m_pieces ps' caps s')
  | Group a :: ps' => m_seq a "" s (fun g s' => m_pieces ps' (caps ++ [g]) s')
  end.

Definition exec (re : list piece) (s : string) : option (list string) :=
  m_pieces re [] s.

(** The texts a quantified class and a sequence of them stand for. *)
Fixpoint all (p : ascii -> bool) (s : string) : bool :=
  match s with
  | EmptyString => true
  | String c s' => p c && all p s'
  end.

Definition lang_atom (a : atom) (w : string) : Prop :=
  match snd a with
  | One => exists c, w = String c "" /\ mem (fst a) c = true
  | Opt => w = "" \/ exists c, w = String c "" /\ mem (fst a) c = true
  | Star => all (mem (fst a)) w = true
  | Plus => exists c w', w = String c w' /\ mem (fst a) c = true /\
                         all (mem (fst a)) w' = true
  end.

Fixpoint lang_seq (ps : list atom) (w : string) : Prop :=
  match ps with
  | [] => w = ""
  | a :: ps' => exists u v, w = u ++ v /\ lang_atom a u /\ lang_seq ps' v
  end.

(** A successful match called its continuation [f] after consuming a
    text of the language [L]. *)
Definition consumes {R : Type} (f : @cont R) (L : string -> Prop)
    (acc s : string) (r : R) : Prop :=
  exists w s', s = w ++ s' /\ L w /\ f (acc ++ w) s' = Some r.

(** The least number of characters a match consumes. *)
Definition min_atom (a : atom) : nat :=
  match snd a with
  | One | Plus => 1
  | Opt | Star => 0
  end.

Definition min_seq (ps : list atom) : nat :=
  fold_right (fun a n => min_atom a + n) 0 ps.

Definition atoms_of (p : piece) : list atom :=
  match p with Plain a | Group a => a end.

Definition min_re (re : list piece) : nat :=
  fold_right (fun p n => min_seq (atoms_of p) + n) 0 re.

End Regex.

(** The pattern of the debounced search: start of input, a group made of
    an optional minus, one or more digits, an optional dot and any number
    of digits; a comma; any white space; a second such group; end of
    input. *)
Definition coord_component : list Regex.atom :=
  [ (Regex.Lit "-"%char, Regex.Opt); (Regex.Digit, Regex.Plus);
    (Regex.Lit "."%char, Regex.Opt); (Regex.Digit, Regex.Star) ].

Definition coord_re : list Regex.piece :=
  [ Regex.Group coord_component;
    Regex.Plain [ (Regex.Lit ","%char, Regex.One); (Regex.Space, Regex.Star) ];
    Regex.Group coord_component ].

(** [query.match(coord_re)], as the pair [coordMatch[1], coordMatch[2]]. *)
Definition coordMatch (query : string) : option (string * string) :=
  match Regex.exec coord_re query with
  | Some [a; b] => Some (a, b)
  | _ => None
  end.


(** The texts the pattern is meant for: an optional minus, digits, and
    optionally a dot with further digits. *)
Module Pattern.

Definition digits (s : string) : bool := Regex.all Regex.is_digit s.
Definition blanks (s : string) : bool := Regex.all Regex.is_space s.

Definition component (minus : bool) (whole : string) (frac : option string)
  : string :=
  (if minus then "-" else "") ++ whole ++
  match frac with
  | Some d => "." ++ d
  | None => ""
  end.

Definition well_formed (whole : string) (frac : option string) : bool :=
  negb (String.eqb whole "") && digits whole &&
  match frac with
  | Some d => digits d
  | None => true
  end.

(** The input left after a component: nothing, or the comma. *)
Definition boundary (rest : string) : Prop :=
  match rest with
  | EmptyString => True
  | String c _ => c = ","%char
  end.

(** The input does not start with a character of the class. *)
Definition stops (k : Regex.cls) (rest : string) : Prop :=
  match rest with
  | EmptyString => True
  | String c _ => Regex.mem k c = false
  end.

End Pattern.

(** ** An exact decimal runtime

    An instance of [JS.Numbers] in which a number is a decimal fraction
    [m / 10^k] or NaN.  It reads and prints the plain decimal literals the
    coordinate pattern admits and compares them exactly; it is what the
    examples are evaluated with.  The theorems hold for every instance. *)

Module Decimal.

Inductive t := NaN | Fin (m : Z) (k : nat).

Definition digit_val (c : ascii) : Z := Z.of_nat (nat_of_ascii c) - 48.

Fixpoint read_digits (s : string) (acc : Z) (n : nat) : Z * nat * string :=
  match s with
  | String c s' =>
      if Regex.is_digit c then read_digits s' (10 * acc + digit_val c) (S n)
      else (acc, n, s)
  | EmptyString => (acc, n, s)
  end.

Fixpoint skip_space (s : string) : string :=
  match s with
  | String c s' => if Regex.is_space c then skip_space s' else s
  | EmptyString => s
  end.

(** Drop the trailing zeros of the fraction. *)
Fixpoint normalize (m : Z) (k : nat) : Z * nat :=
  match k with
  | O => (m, O)
  | S k' => if (m mod 10 =? 0)%Z then normalize (m / 10) k' else (m, k)
  end.

Definition parse (s : string) : t :=
  let s0 := skip_space s in
  let '(neg, s1) :=
    match s0 with
    | String "-" r => (true, r)
    | String "+" r => (false, r)
    | _ => (false, s0)
    end in
  let '(i, ni, s2) := read_digits s1 0 0 in
  let '(m, nf) :=
    match s2 with
    | String "." r => let '(m, n, _) := read_digits r i 0 in (m, n)
    | _ => (i, O)
    end in
  if (ni + nf =? 0)%nat then NaN
  else let '(m', k') := normalize m nf in
       Fin (if neg then - m' else m')%Z k'.

Definition nat_string (n : Z) : string :=
  NilZero.string_of_uint (N.to_uint (Z.to_N n)).

Fixpoint zeros (n : nat) : string :=
  match n with O => "" | S n' => String "0" (zeros n') end.

Definition print (x : t) : string :=
  match x with
  | NaN => "NaN"
  | Fin m k =>
      let a := Z.abs m in
      let p := (10 ^ Z.of_nat k)%Z in
      let whole := nat_string (a / p) in
      let frac := nat_string (a mod p) in
      (if (m <? 0)%Z then "-" else "") ++ whole ++
      match k with
      | O => ""
      | _ => "." ++ zeros (k - String.length frac) ++ frac
      end
  end.

Definition le (x y : t) : bool :=
  match x, y with
  | Fin m1 k1, Fin m2 k2 =>
      (m1 * 10 ^ Z.of_nat k2 <=? m2 * 10 ^ Z.of_nat k1)%Z
  | _, _ => false
  end.

#[global] Instance numbers : JS.Numbers := {|
  JS.number := t;
  JS.parseFloat := parse;
  JS.toString := print;
  JS.ofZ := fun z => Fin z 0;
  JS.geb := fun x y => le y x;
  JS.leb := le
|}.

End Decimal.

(** ** types/api.ts *)

Section Types.
Context {Num : JS.Numbers}.

(** [interface Location { lat: number; lng: number; address?: string }] *)
Record Location := {
  lat : JS.number;
  lng : JS.number;
  address : option string
}.

(** [interface RouteOption]; the route details, the eco analysis and the
    emissions are only handed to the presentation components, so they
    are kept as their JSON text. *)
Record RouteOption := {
  mode : string;
  route_details : string;
  eco_analysis : string;
  estimated_emissions : string
}.

(** [interface EcoRouteResponse], with the same convention for the
    fields the handlers never inspect. *)
Record EcoRouteResponse := {
  environmental_conditions : string;
  route_options : list RouteOption;
  recommended_route : option RouteOption;
  summary : string
}.
End Types.

(** ** components/LocationInput.tsx *)

Module SearchResult.
  (** [interface SearchResult { display_name; lat; lon }], all strings. *)
Record t := { display_name : string; lat : string; lon : string }.
End SearchResult.

Module LocationInput.
Section Component.
Context {Num : JS.Numbers}.

(** The component's state variables, the [value] prop its parent holds,
    and what is suspended between event-loop turns. *)
Record State := {
  value : option Location;
  query : string;
  results : list SearchResult.t;
  isSearching : bool;
  showResults : bool;
  (** [searchTimeoutRef]: the armed timer, with the [query] its closure
      captured *)
  searchTimeout : option string;
  (** calls of [geocodingService.searchLocation] still awaited: the
      number of the call and its argument *)
  inflight : list (nat * string);
  (** every argument [searchLocation] was called with, oldest first *)
  requests : list string;
  (** every argument [onChange] was called with, oldest first *)
  emitted : list (option Location)
}.

Definition setValue v s :=
  {| value := v; query := query s; results := results s;
     isSearching := isSearching s; showResults := showResults s;
     searchTimeout := searchTimeout s; inflight := inflight s;
     requests := requests s; emitted := emitted s |}.

Definition setQueryText q s :=
  {| value := value s; query := q; results := results s;
     isSearching := isSearching s; showResults := showResults s;
     searchTimeout := searchTimeout s; inflight := inflight s;
     requests := requests s; emitted := emitted s |}.

Definition setResults r s :=
  {| value := value s; query := query s; results := r;
     isSearching := isSearching s; showResults := showResults s;
     searchTimeout := searchTimeout s; inflight := inflight s;
     requests := requests s; emitted := emitted s |}.

Definition setIsSearching b s :=
  {| value := value s; query := query s; results := results s;
     isSearching := b; showResults := showResults s;
     searchTimeout := searchTimeout s; inflight := inflight s;
     requests := requests s; emitted := emitted s |}.

Definition setShowResults b s :=
  {| value := value s; query := query s; results := results s;
     isSearching := isSearching s; showResults := b;
     searchTimeout := searchTimeout s; inflight := inflight s;
     requests := requests s; emitted := emitted s |}.

Definition setTimer t s :=
  {| value := value s; query := query s; results := results s;
     isSearching := isSearching s; showResults := showResults s;
     searchTimeout := t; inflight := inflight s;
     requests := requests s; emitted := emitted s |}.

Definition setInflight l s :=
  {| value := value s; query := query s; results := results s;
     isSearching := isSearching s; showResults := showResults s;
     searchTimeout := searchTimeout s; inflight := l;
     requests := requests s; emitted := emitted s |}.

Definition setRequests l s :=
  {| value := value s; query := query s; results := results s;
     isSearching := isSearching s; showResults := showResults s;
     searchTimeout := searchTimeout s; inflight := inflight s;
     requests := l; emitted := emitted s |}.

Definition setEmitted l s :=
  {| value := value s; query := query s; results := results s;
     isSearching := isSearching s; showResults := showResults s;
     searchTimeout := searchTimeout s; inflight := inflight s;
     requests := requests s; emitted := l |}.

(** The template literal [`${lat}, ${lng}`]. *)
Definition coordText (a b : JS.number) : string :=
  JS.toString a ++ ", " ++ JS.toString b.

(** The body of the effect on [value]: what [setQuery] is called with. *)
Definition displayText (v : option Location) : string :=
  match v with
  | Some l =>
      match address l with
      | Some a => if JS.truthy a then a else coordText (lat l) (lng l)
      | None => coordText (lat l) (lng l)
      end
  | None => ""
  end.

(** The effect on [query]: its clean-up and its first lines clear the
    pending timer; then a timer is armed for a query of more than two
    characters, and the dropdown is emptied and closed otherwise. *)
Definition searchEffect (s : State) : State :=
  if (2 <? String.length (query s))%nat
  then setTimer (Some (query s)) s
  else setShowResults false (setResults [] (setTimer None s)).

(** [setQuery q] and the render that follows: React keeps the state and
    runs no effect when the value is the one it has. *)
Definition setQuery (q : string) (s : State) : State :=
  if String.eqb (query s) q then s
  else searchEffect (setQueryText q s).

(** The parent renders the component with a new [value]; the effect on
    [value] runs. *)
Definition syncValue (v : option Location) (s : State) : State :=
  setQuery (displayText v) (setValue v s).

(** [onChange v] is called: the parent ([setStartLocation],
    [setEndLocation]) stores [v].  It reaches the component as its new
    [value] in the render after the handler, see [syncValue]. *)
Definition emit (v : option Location) (s : State) : State :=
  setEmitted (emitted s ++ [v]) s.

(** [lat >= -90 && lat <= 90 && lng >= -180 && lng <= 180] *)
Definition inRange (a b : JS.number) : bool :=
  JS.geb a (JS.ofZ (-90)) && JS.leb a (JS.ofZ 90) &&
  JS.geb b (JS.ofZ (-180)) && JS.leb b (JS.ofZ 180).

(** The coordinate branch of the timer's callback: the location it
    passes to [onChange], if it takes that branch. *)
Definition coordLocation (q : string) : option Location :=
  match coordMatch q with
  | Some (g1, g2) =>
      let a := JS.parseFloat g1 in
      let b := JS.parseFloat g2 in
      if inRange a b
      then Some {| lat := a; lng := b; address := Some (coordText a b) |}
      else None
  | None => None
  end.

(** The timer's callback, up to its first [await] or its [return], and
    the render that follows. *)
Definition fireTimer (q : string) (s : State) : State :=
  let s := setIsSearching true (setTimer None s) in
  match coordLocation q with
  | Some l =>
      syncValue (Some l)
        (setIsSearching false
           (setShowResults false (setResults [] (emit (Some l) s))))
  | None =>
      let n := List.length (requests s) in
      setInflight (inflight s ++ [(n, q)])
        (setRequests (requests s ++ [q]) s)
  end.

(** [geocodingService.searchLocation]: the provider's answer, or the
    empty list when the request fails. *)
Definition searchLocation (answer : option (list SearchResult.t))
  : list SearchResult.t :=
  match answer with
  | Some data => data
  | None => []
  end.

Definition isEmpty {A} (l : list A) : bool :=
  match l with [] => true | _ => false end.

(** The rest of the callback, once [searchLocation] has resolved. *)
Definition resumeSearch (searchResults : list SearchResult.t) (s : State)
  : State :=
  setIsSearching false
    (setShowResults (negb (isEmpty searchResults))
       (setResults searchResults s)).

Definition handleSelectResult (result : SearchResult.t) (s : State) : State :=
  let location :=
    {| lat := JS.parseFloat (SearchResult.lat result);
       lng := JS.parseFloat (SearchResult.lon result);
       address := Some (SearchResult.display_name result) |} in
  (* the handler, then the render after it: the effect on [query] runs
     for the text the handler set, the effect on [value] sets it again *)
  syncValue (Some location)
    (setShowResults false
       (setQuery (SearchResult.display_name result)
          (emit (Some location) s))).

Definition handleClear (s : State) : State :=
  syncValue None
    (setShowResults false (setResults [] (emit None (setQuery "" s)))).

Definition handleClickOutside (s : State) : State :=
  setShowResults false s.

Inductive Event :=
| ValueChanged (v : option Location)
| InputChanged (text : string)
| TimerFired
| SearchResolved (call : nat) (answer : option (list SearchResult.t))
| ResultClicked (result : SearchResult.t)
| ClearClicked
| OutsideClicked.

Fixpoint lookup (n : nat) (l : list (nat * string)) : option string :=
  match l with
  | [] => None
  | (m, q) :: l' => if (m =? n)%nat then Some q else lookup n l'
  end.

Definition remove (n : nat) (l : list (nat * string)) : list (nat * string) :=
  filter (fun p => negb (fst p =? n)%nat) l.

Definition step (s : State) (e : Event) : State :=
  match e with
  | ValueChanged v => syncValue v s
  | InputChanged text => setQuery text s
  | TimerFired =>
      match searchTimeout s with
      | Some q => fireTimer q s
      | None => s
      end
  | SearchResolved call answer =>
      match lookup call (inflight s) with
      | Some _ =>
          resumeSearch (searchLocation answer)
            (setInflight (remove call (inflight s)) s)
      | None => s
      end
  | ResultClicked result => handleSelectResult result s
  | ClearClicked => handleClear s
  | OutsideClicked => handleClickOutside s
  end.

Definition run (s : State) (es : list Event) : State :=
  fold_left step es s.

(** The state after the first render with [value = null] and its
    effects. *)
Definition mounted : State :=
  {| value := None; query := ""; results := []; isSearching := false;
     showResults := false; searchTimeout := None; inflight := [];
     requests := []; emitted := [] |}.

(** *** Invariant *)

(** The armed timer is always the one of the current query, and only a
    query of more than two characters arms one or reaches the
    geocoding service. *)
Definition gated (s : State) : Prop :=
  (forall q, searchTimeout s = Some q ->
             q = query s /\ 2 < String.length q) /\
  Forall (fun q => 2 < String.length q) (requests s).

End Component.
End LocationInput.

(** ** App.tsx *)

Module App.
Section Component.
Context {Num : JS.Numbers}.

(** What [err.response?.data?.detail] reads of a rejection.  The
    rejection is caught as [any]: [detail] is whatever the body holds
    under that key. *)
Record ErrorBody := { detail : option JSON.value }.
Record ErrorResponse := { data : option ErrorBody }.
Record AxiosError := { response : option ErrorResponse }.

Definition detailOf (err : AxiosError) : option JSON.value :=
  match response err with
  | Some r => match data r with
              | Some b => detail b
              | None => None
              end
  | None => None
  end.

(** The arguments of one [apiService.planEcoRoute] call. *)
Record PlanCall := {
  startCoords : string;
  endCoords : string;
  modes : list string
}.

Record State := {
  startLocation : option Location;
  endLocation : option Location;
  selectedModes : list string;
  routeData : option EcoRouteResponse;
  selectedRoute : option RouteOption;
  isLoading : bool;
  (** declared [string | null]; [setError] is also given the [detail] of
      a rejection as it is *)
  error : option JSON.value;
  (** the numbers of the [planEcoRoute] calls still awaited *)
  inflight : list nat;
  (** every [planEcoRoute] call made, oldest first *)
  calls : list PlanCall
}.

Definition setStartLocation v s :=
  {| startLocation := v; endLocation := endLocation s;
     selectedModes := selectedModes s; routeData := routeData s;
     selectedRoute := selectedRoute s; isLoading := isLoading s;
     error := error s; inflight := inflight s; calls := calls s |}.

Definition setEndLocation v s :=
  {| startLocation := startLocation s; endLocation := v;
     selectedModes := selectedModes s; routeData := routeData s;
     selectedRoute := selectedRoute s; isLoading := isLoading s;
     error := error s; inflight := inflight s; calls := calls s |}.

Definition setSelectedModes v s :=
  {| startLocation := startLocation s; endLocation := endLocation s;
     selectedModes := v; routeData := routeData s;
     selectedRoute := selectedRoute s; isLoading := isLoading s;
     error := error s; inflight := inflight s; calls := calls s |}.

Definition setRouteData v s :=
  {| startLocation := startLocation s; endLocation := endLocation s;
     selectedModes := selectedModes s; routeData := v;
     selectedRoute := selectedRoute s; isLoading := isLoading s;
     error := error s; inflight := inflight s; calls := calls s |}.

Definition setSelectedRoute v s :=
  {| startLocation := startLocation s; endLocation := endLocation s;
     selectedModes := selectedModes s; routeData := routeData s;
     selectedRoute := v; isLoading := isLoading s;
     error := error s; inflight := inflight s; calls := calls s |}.

Definition setIsLoading v s :=
  {| startLocation := startLocation s; endLocation := endLocation s;
     selectedModes := selectedModes s; routeData := routeData s;
     selectedRoute := selectedRoute s; isLoading := v;
     error := error s; inflight := inflight s; calls := calls s |}.

Definition setError v s :=
  {| startLocation := startLocation s; endLocation := endLocation s;
     selectedModes := selectedModes s; routeData := routeData s;
     selectedRoute := selectedRoute s; isLoading := isLoading s;
     error := v; inflight := inflight s; calls := calls s |}.

Definition setInflight v s :=
  {| startLocation := startLocation s; endLocation := endLocation s;
     selectedModes := selectedModes s; routeData := routeData s;
     selectedRoute := selectedRoute s; isLoading := isLoading s;
     error := error s; inflight := v; calls := calls s |}.

Definition setCalls v s :=
  {| startLocation := startLocation s; endLocation := endLocation s;
     selectedModes := selectedModes s; routeData := routeData s;
     selectedRoute := selectedRoute s; isLoading := isLoading s;
     error := error s; inflight := inflight s; calls := v |}.

Definition requiredFields : JSON.value :=
  JSON.Str "Please fill in all required fields".
Definition planFailed : JSON.value :=
  JSON.Str "Failed to plan route. Please try again.".

(** [`${location.lng},${location.lat}`] *)
Definition coords (l : Location) : string :=
  JS.toString (lng l) ++ "," ++ JS.toString (lat l).

(** [handlePlanRoute], up to its [await]. *)
Definition handlePlanRoute (s : State) : State :=
  match startLocation s, endLocation s, selectedModes s with
  | Some a, Some b, (_ :: _) as ms =>
      let s1 := setError None (setIsLoading true s) in
      let call := {| startCoords := coords a; endCoords := coords b;
                     modes := ms |} in
      setInflight (inflight s1 ++ [List.length (calls s1)])
        (setCalls (calls s1 ++ [call]) s1)
  | _, _, _ => setError (Some requiredFields) s
  end.

(** How an awaited [planEcoRoute] call settles. *)
Inductive Outcome :=
| Fulfilled (response : EcoRouteResponse)
| Rejected (err : AxiosError).

(** [handlePlanRoute], from its [await] on. *)
Definition resumePlanRoute (o : Outcome) (s : State) : State :=
  setIsLoading false
    match o with
    | Fulfilled response =>
        setSelectedRoute (recommended_route response)
          (setRouteData (Some response) s)
    | Rejected err =>
        setSelectedRoute None
          (setRouteData None
             (setError (Some (JSON.or_else (detailOf err) planFailed)) s))
    end.

Definition handleRouteSelect (route : RouteOption) (s : State) : State :=
  setSelectedRoute (Some route) s.

Definition handleRetry (s : State) : State :=
  handlePlanRoute (setError None s).

Inductive Event :=
| StartChanged (v : option Location)
| EndChanged (v : option Location)
| ModesChanged (ms : list string)
| PlanClicked
| PlanSettled (call : nat) (o : Outcome)
| RouteClicked (route : RouteOption)
| RetryClicked
(** a render that changes no state: a map redraw, a display update *)
| Rendered.

Definition awaited (call : nat) (s : State) : bool :=
  existsb (Nat.eqb call) (inflight s).

Definition step (s : State) (e : Event) : State :=
  match e with
  | StartChanged v => setStartLocation v s
  | EndChanged v => setEndLocation v s
  | ModesChanged ms => setSelectedModes ms s
  | PlanClicked => handlePlanRoute s
  | PlanSettled call o =>
      if awaited call s
      then resumePlanRoute o
             (setInflight
                (filter (fun c => negb (c =? call)%nat) (inflight s)) s)
      else s
  | RouteClicked route => handleRouteSelect route s
  | RetryClicked => handleRetry s
  | Rendered => s
  end.

Definition run (s : State) (es : list Event) : State :=
  fold_left step es s.

(** [useState] initial values. *)
Definition initial : State :=
  {| startLocation := None; endLocation := None;
     selectedModes := ["cycling-regular"]; routeData := None;
     selectedRoute := None; isLoading := false; error := None;
     inflight := []; calls := [] |}.

(** *** What the rendered page offers

    The plan button carries
    [disabled = !startLocation || !endLocation ||
                selectedModes.length === 0 || isLoading];
    the retry action exists while [error] is truthy; a route button
    exists for each element of [routeData.route_options]. *)

Definition routeEqb (a b : RouteOption) : bool :=
  String.eqb (mode a) (mode b) &&
  String.eqb (route_details a) (route_details b) &&
  String.eqb (eco_analysis a) (eco_analysis b) &&
  String.eqb (estimated_emissions a) (estimated_emissions b).

Definition isSome {A} (o : option A) : bool :=
  match o with Some _ => true | None => false end.

Definition planEnabled (s : State) : bool :=
  isSome (startLocation s) && isSome (endLocation s) &&
  negb (LocationInput.isEmpty (selectedModes s)) && negb (isLoading s).

Definition retryOffered (s : State) : bool :=
  match error s with
  | Some m => JSON.truthy m
  | None => false
  end.

Definition routeOffered (route : RouteOption) (s : State) : bool :=
  match routeData s with
  | Some d => existsb (routeEqb route) (route_options d)
  | None => false
  end.

Definition offered (s : State) (e : Event) : bool :=
  match e with
  | PlanClicked => planEnabled s
  | RetryClicked => retryOffered s
  | RouteClicked route => routeOffered route s
  | PlanSettled call _ => awaited call s
  | _ => true
  end.

(** A sequence of events each of which the page offers when it occurs. *)
Fixpoint wired (s : State) (es : list Event) : bool :=
  match es with
  | [] => true
  | e :: es' => offered s e && wired (step s e) es'
  end.

(** *** Invariants *)

(** At most one call is awaited, the last one made; while it is, the
    page shows the loading state and no message. *)
Definition oneLive (s : State) : Prop :=
  inflight s = [] \/
  (inflight s = [List.length (calls s) - 1] /\ 0 < List.length (calls s) /\
   isLoading s = true /\ error s = None).

(** A selected route is one of the options of the result on display. *)
Definition listed (s : State) : Prop :=
  match selectedRoute s with
  | Some r =>
      match routeData s with
      | Some d => In r (route_options d)
      | None => False
      end
  | None => True
  end.

(** The backend recommends one of the options it returns, or nothing. *)
Definition recommendsListed (e : Event) : Prop :=
  match e with
  | PlanSettled _ (Fulfilled response) =>
      match recommended_route response with
      | Some r => In r (route_options response)
      | None => True
      end
  | _ => True
  end.

(** Events that neither settle a plan nor select a route. *)
Definition quiet (e : Event) : bool :=
  match e with
  | PlanSettled _ _ | RouteClicked _ => false
  | _ => true
  end.

End Component.
End App.

(** *** What the field renders

    The dropdown is rendered under [showResults && results.length > 0],
    the clear button under [query]. *)

Module LocationInputView.
Section View.
Context {Num : JS.Numbers}.
Import LocationInput.

Definition dropdownRendered (s : State) : bool :=
  showResults s && negb (isEmpty (results s)).

Definition clearRendered (s : State) : bool := JS.truthy (query s).

(** An open dropdown has something to show. *)
Definition dropdownSound (s : State) : Prop :=
  showResults s = true -> results s <> [].

(** The spinner turns only while a call is awaited. *)
Definition spinnerSound (s : State) : Prop :=
  isSearching s = true -> inflight s <> [].

End View.
End LocationInputView.

(** *** What the page renders

    The message is rendered under [error], the score card under
    [selectedRoute && routeData]. *)

Module AppView.
Section View.
Context {Num : JS.Numbers}.
Import App.

(** [!startLocation || !endLocation || selectedModes.length === 0] *)
Definition fieldsMissing (s : State) : bool :=
  negb (isSome (startLocation s)) || negb (isSome (endLocation s)) ||
  LocationInput.isEmpty (selectedModes s).

Definition scoreCardRendered (s : State) : bool :=
  isSome (selectedRoute s) && isSome (routeData s).

(** The loading state lasts exactly as long as a call is awaited. *)
Definition loadingSound (s : State) : Prop :=
  isLoading s = true <-> inflight s <> [].

(** Under a message there is neither a result nor a selection. *)
Definition messageSound (s : State) : Prop :=
  error s <> None -> routeData s = None /\ selectedRoute s = None.

(** A selection has a result behind it. *)
Definition selectionBacked (s : State) : Prop :=
  selectedRoute s <> None -> routeData s <> None.

End View.
End AppView.

(** ** components/TransportModeSelector.tsx *)

Module TransportModeSelector.

(** [interface TransportMode], without its icon. *)
Record TransportMode := {
  id : string;
  label : string;
  description : string
}.

Definition transportModes : list TransportMode :=
  [ {| id := "driving-car"; label := "Driving"; description := "Car route" |};
    {| id := "cycling-regular"; label := "Cycling";
       description := "Bike route" |};
    {| id := "foot-walking"; label := "Walking";
       description := "Walking route" |} ].

(** [selectedModes.includes(modeId)] *)
Definition includes (selectedModes : list string) (modeId : string) : bool :=
  existsb (String.eqb modeId) selectedModes.

(** [handleModeToggle]: the list it passes to [onChange]. *)
Definition handleModeToggle (selectedModes : list string) (modeId : string)
  : list string :=
  if includes selectedModes modeId
  then filter (fun id => negb (String.eqb id modeId)) selectedModes
  else selectedModes ++ [modeId].

(** The note under the buttons is rendered under
    [selectedModes.length === 0]. *)
Definition warningRendered (selectedModes : list string) : bool :=
  LocationInput.isEmpty selectedModes.

(** The selection after the buttons of [ids] have been clicked in turn. *)
Definition toggles (selectedModes : list string) (ids : list string)
  : list string :=
  fold_left handleModeToggle ids selectedModes.

End TransportModeSelector.

(** ** components/HealthCheck.tsx *)

Module HealthCheck.

Inductive Status := checking | healthy | unhealthy.

(** [interface HealthResponse] *)
Record HealthResponse := { status_text : string; response_message : string }.

Record State := { status : Status; message : string }.

(** [useState] initial values. *)
Definition initial : State := {| status := checking; message := "" |}.

Definition unreachable : string := "Unable to connect to Eco-MCP API".
Definition pending : string := "Checking API status...".

(** [checkApiHealth], up to its [await]. *)
Definition checkApiHealth (s : State) : State :=
  {| status := checking; message := message s |}.

(** [checkApiHealth], from its [await] on: the response of
    [apiService.checkHealth], or its rejection. *)
Definition resumeCheck (outcome : option HealthResponse) (s : State) : State :=
  match outcome with
  | Some response =>
      {| status := healthy; message := response_message response |}
  | None => {| status := unhealthy; message := unreachable |}
  end.

Definition getStatusColor (s : State) : string :=
  match status s with
  | checking => "text-yellow-600 bg-yellow-50 border-yellow-200"
  | healthy => "text-green-600 bg-green-50 border-green-200"
  | unhealthy => "text-red-600 bg-red-50 border-red-200"
  end.

(** [message || 'Checking API status...'] *)
Definition shown (s : State) : string :=
  JS.or_else (Some (message s)) pending.

(** The effect runs once, after the first render. *)
Definition afterMount (outcome : option HealthResponse) : State :=
  resumeCheck outcome (checkApiHealth initial).

End HealthCheck.

(** ** components/EcoScoreCard.tsx *)

Module EcoScoreCard.

Definition getScoreColor (score : Num.t) : string :=
  if Num.geZ score 80 then "text-green-600"
  else if Num.geZ score 60 then "text-yellow-600"
  else if Num.geZ score 40 then "text-orange-600"
  else "text-red-600".

Definition getScoreBgColor (score : Num.t) : string :=
  if Num.geZ score 80 then "bg-green-100"
  else if Num.geZ score 60 then "bg-yellow-100"
  else if Num.geZ score 40 then "bg-orange-100"
  else "bg-red-100".

Definition labels : list string :=
  [""; "Good"; "Fair"; "Moderate"; "Poor"; "Very Poor"].

(** [labels[aqi] || 'Unknown'] *)
Definition getAQILabel (aqi : Num.t) : string :=
  JS.or_else
    (match Num.index aqi with
     | Some i => nth_error labels i
     | None => None
     end)
    "Unknown".

Definition getAQIColor (aqi : Num.t) : string :=
  if Num.leZ aqi 2 then "text-green-600"
  else if Num.eqZ aqi 3 then "text-yellow-600"
  else "text-red-600".

(** The place of a score colour, from worst to best. *)
Definition rank (color : string) : nat :=
  if String.eqb color "text-green-600" then 3
  else if String.eqb color "text-yellow-600" then 2
  else if String.eqb color "text-orange-600" then 1
  else 0.

(** The colour word of a class name: what lies between the first and the
    second hyphen. *)
Fixpoint upto_hyphen (s : string) : string :=
  match s with
  | EmptyString => ""
  | String c s' => if Ascii.eqb c "-" then "" else String c (upto_hyphen s')
  end.

Fixpoint after_hyphen (s : string) : string :=
  match s with
  | EmptyString => ""
  | String c s' => if Ascii.eqb c "-" then s' else after_hyphen s'
  end.

Definition hue (class : string) : string := upto_hyphen (after_hyphen class).

End EcoScoreCard.

(** ** components/EcoMap.tsx *)

Module RouteLayer.

(** The options [L.polyline] is given, [smoothFactor] apart; the opacity
    in tenths. *)
Record Style := { color : string; weight : Z; opacity_tenths : Z }.

Definition selectedStyle : Style :=
  {| color := "#22c55e"; weight := 6; opacity_tenths := 9 |}.
Definition recommendedStyle : Style :=
  {| color := "#10b981"; weight := 5; opacity_tenths := 8 |}.
Definition defaultStyle : Style :=
  {| color := "#6b7280"; weight := 4; opacity_tenths := 6 |}.

(** [selectedRoute?.mode === route.mode] *)
Definition isSelected (selectedRoute : option RouteOption) (route : RouteOption)
  : bool :=
  match selectedRoute with
  | Some r => String.eqb (mode r) (mode route)
  | None => false
  end.

Definition styleOf (selectedRoute : option RouteOption) (index : nat)
    (route : RouteOption) : Style :=
  if isSelected selectedRoute route then selectedStyle
  else if (index =? 0)%nat then recommendedStyle
  else defaultStyle.

(** The styles of the lines the effect draws, in the order of [routes]. *)
Fixpoint stylesFrom (selectedRoute : option RouteOption) (index : nat)
    (routes : list RouteOption) : list Style :=
  match routes with
  | [] => []
  | route :: rest =>
      styleOf selectedRoute index route
      :: stylesFrom selectedRoute (S index) rest
  end.

Definition styles (selectedRoute : option RouteOption)
    (routes : list RouteOption) : list Style :=
  stylesFrom selectedRoute 0 routes.

Definition isSelectedStyle (st : Style) : bool :=
  String.eqb (color st) (color selectedStyle).

End RouteLayer.

(** ** Sample data, over the decimal runtime *)

Module Sample.

Definition chennai : Location :=
  {| lat := Decimal.parse "13.0827"; lng := Decimal.parse "80.2707";
     address := Some "Chennai" |}.

Definition egmore : Location :=
  {| lat := Decimal.parse "13.0674"; lng := Decimal.parse "80.2430";
     address := None |}.

(** A location whose address is the empty string. *)
Definition unnamed : Location :=
  {| lat := Decimal.parse "13.05"; lng := Decimal.parse "80.27";
     address := Some "" |}.

Definition hit (name : string) : SearchResult.t :=
  {| SearchResult.display_name := name;
     SearchResult.lat := "13.0836939"; SearchResult.lon := "80.270186" |}.

Definition option_for (m : string) : RouteOption :=
  {| mode := m; route_details := "{}"; eco_analysis := "{}";
     estimated_emissions := "{}" |}.

Definition cycling := option_for "cycling-regular".
Definition driving := option_for "driving-car".
Definition walking := option_for "foot-walking".

Definition plan_of (options : list RouteOption) : EcoRouteResponse :=
  {| environmental_conditions := "{}"; route_options := options;
     recommended_route := hd_error options; summary := "{}" |}.

(** A rejection whose response body is [{"detail": d}]. *)
Definition http_error (d : string) : App.AxiosError :=
  {| App.response :=
       Some {| App.data := Some {| App.detail := Some (JSON.Str d) |} |} |}.

(** A rejection with the body of a request that failed validation:
    [detail] is a list of objects (its text is written with single
    quotes here). *)
Definition validation_errors : JSON.value :=
  JSON.Array ("[{'loc':['query','start'],'msg':'field required',"
              ++ "'type':'value_error.missing'}]").

Definition validation_error : App.AxiosError :=
  {| App.response :=
       Some {| App.data := Some {| App.detail := Some validation_errors |} |} |}.

(** A rejection without a response: no connection, or the 15 s timeout. *)
Definition no_response : App.AxiosError := {| App.response := None |}.

(** Both fields filled in. *)
Definition filled : list App.Event :=
  [App.StartChanged (Some chennai); App.EndChanged (Some egmore)].

(** One plan, fulfilled with the three options, cycling first. *)
Definition planned : list App.Event :=
  filled ++ [App.PlanClicked;
             App.PlanSettled 0
               (App.Fulfilled (plan_of [cycling; driving; walking]))].

End Sample.

(** * Properties *)

(** ** The runtime and the coordinate pattern *)

Lemma truthy_nonempty (s : string) : JS.truthy s = true <-> s <> "".
Proof. destruct s; simpl; split; congruence. Qed.

Lemma truthy_empty (s : string) : JS.truthy s = false <-> s = "".
Proof. destruct s; simpl; split; congruence. Qed.

Example coordMatch_plain : coordMatch "13.05, 80.27" = Some ("13.05", "80.27").
Proof. reflexivity. Qed.
Example coordMatch_signs : coordMatch "-7.,-120" = Some ("-7.", "-120").
Proof. reflexivity. Qed.
Example coordMatch_large : coordMatch "95, 200" = Some ("95", "200").
Proof. reflexivity. Qed.
Example coordMatch_space_before_comma : coordMatch "13.05 , 80.27" = None.
Proof. reflexivity. Qed.
Example coordMatch_text : coordMatch "Chennai" = None.
Proof. reflexivity. Qed.
Example coordMatch_shortest : coordMatch "1,2" = Some ("1", "2").
Proof. reflexivity. Qed.

Example decimal_print_parse : Decimal.print (Decimal.parse "13.050") = "13.05".
Proof. reflexivity. Qed.
Example decimal_negative : Decimal.print (Decimal.parse "-0.05") = "-0.05".
Proof. reflexivity. Qed.
Example decimal_not_a_number : Decimal.print (Decimal.parse "abc") = "NaN".
Proof. reflexivity. Qed.

Section RegexLength.
Context {R : Type}.
Implicit Types (f : @Regex.cont R) (acc s : string) (r : R).
Import Regex.

Lemma one_length k acc s f r :
  Regex.one k acc s f = Some r -> reaches f 1 s r.
Proof.
  destruct s as [|c s']; simpl; [discriminate|].
  destruct (Regex.mem k c); [|discriminate].
  intros H. exists (Regex.snoc acc c), s'. split; [exact H | simpl; lia].
Qed.

Lemma opt_length k acc s f r :
  Regex.opt k acc s f = Some r -> reaches f 0 s r.
Proof.
  assert (Hskip : f acc s = Some r -> reaches f 0 s r).
  { intros H. exists acc, s. split; [exact H | lia]. }
  destruct s as [|c s']; simpl; [exact Hskip|].
  destruct (Regex.mem k c); [|exact Hskip].
  destruct (f (Regex.snoc acc c) s') as [r'|] eqn:E; [|exact Hskip].
  intros H. injection H as <-.
  exists (Regex.snoc acc c), s'. split; [exact E | simpl; lia].
Qed.

Lemma star_length k s : forall acc f r,
  Regex.star k acc s f = Some r -> reaches f 0 s r.
Proof.
  induction s as [|c s' IH]; intros acc f r; simpl.
  - intros H. exists acc, "". split; [exact H | lia].
  - assert (Hskip : f acc (String c s') = Some r -> reaches f 0 (String c s') r).
    { intros H. exists acc, (String c s'). split; [exact H | lia]. }
    destruct (Regex.mem k c); [|exact Hskip].
    destruct (Regex.star k (Regex.snoc acc c) s' f) as [r'|] eqn:E; [|exact Hskip].
    intros H. injection H as <-.
    destruct (IH _ _ _ E) as (a & t & Hf & Hl).
    exists a, t. split; [exact Hf | simpl; lia].
Qed.

Lemma plus_length k acc s f r :
  Regex.plus k acc s f = Some r -> reaches f 1 s r.
Proof.
  unfold Regex.plus. intros H.
  destruct (one_length _ _ _ _ _ H) as (a & t & Hf & Hl).
  destruct (star_length _ _ _ _ _ Hf) as (a' & t' & Hf' & Hl').
  exists a', t'. split; [exact Hf' | lia].
Qed.

Lemma m_atom_length a acc s f r :
  Regex.m_atom a acc s f = Some r -> reaches f (Regex.min_atom a) s r.
Proof.
  unfold Regex.m_atom, Regex.min_atom. destruct (snd a).
  - apply one_length.
  - apply opt_length.
  - apply star_length.
  - apply plus_length.
Qed.

Lemma m_seq_length ps : forall acc s f r,
  Regex.m_seq ps acc s f = Some r -> reaches f (Regex.min_seq ps) s r.
Proof.
  induction ps as [|a ps IH]; intros acc s f r; simpl.
  - intros H. exists acc, s. split; [exact H | lia].
  - intros H.
    destruct (m_atom_length _ _ _ _ _ H) as (a1 & t1 & Hf & Hl).
    destruct (IH _ _ _ _ Hf) as (a2 & t2 & Hf2 & Hl2).
    exists a2, t2. split; [exact Hf2 | lia].
Qed.
End RegexLength.

Lemma m_pieces_length ps : forall caps s r,
  Regex.m_pieces ps caps s = Some r -> Regex.min_re ps <= String.length s.
Proof.
  induction ps as [|p ps IH]; intros caps s r; simpl.
  - intros _. lia.
  - destruct p as [a|a]; intros H;
      destruct (m_seq_length _ _ _ _ _ H) as (a1 & t1 & Hf & Hl);
      apply IH in Hf; unfold Regex.min_re in *; simpl; lia.
Qed.

(** Every text the coordinate pattern accepts has at least three
    characters: a digit, the comma, a digit. *)
Lemma coordMatch_length (q : string) (g : string * string) :
  coordMatch q = Some g -> 2 < String.length q.
Proof.
  unfold coordMatch, Regex.exec.
  destruct (Regex.m_pieces coord_re [] q) as [caps|] eqn:E; [|discriminate].
  intros _. apply m_pieces_length in E.
  change (Regex.min_re coord_re) with 3 in E. lia.
Qed.

(** *** The pattern accepts the texts it is meant for *)

Lemma append_assoc (a b c : string) : (a ++ b) ++ c = a ++ (b ++ c).
Proof. induction a as [|x a IH]; cbn; [reflexivity | now rewrite IH]. Qed.

Lemma append_nil_r (a : string) : a ++ "" = a.
Proof. induction a as [|x a IH]; cbn; [reflexivity | now rewrite IH]. Qed.

Section RegexComplete.
Context {R : Type}.
Implicit Types (f : @Regex.cont R) (acc s rest : string) (r : R).
Import Regex Pattern.

Lemma star_all k ds : forall acc rest f r,
  Regex.all (mem k) ds = true -> stops k rest ->
  f (acc ++ ds) rest = Some r ->
  star k acc (ds ++ rest) f = Some r.
Proof.
  induction ds as [|c ds IH]; intros acc rest f r A S F.
  - rewrite append_nil_r in F. cbn.
    destruct rest as [|c rest]; cbn in *; [exact F | now rewrite S].
  - cbn in A. apply andb_prop in A as [Hc A]. cbn. rewrite Hc.
    rewrite (IH (snoc acc c) rest f r A S); [reflexivity|].
    unfold snoc. now rewrite append_assoc.
Qed.

Lemma opt_skip k acc s f : stops k s -> opt k acc s f = f acc s.
Proof. destruct s as [|c s]; cbn; [reflexivity | now intros ->]. Qed.

Lemma opt_take k acc c s f r :
  mem k c = true -> f (snoc acc c) s = Some r ->
  opt k acc (String c s) f = Some r.
Proof. intros M F. cbn. now rewrite M, F. Qed.

Lemma boundary_stops rest :
  boundary rest ->
  stops Digit rest /\ stops (Lit "."%char) rest /\ stops (Lit "-"%char) rest.
Proof. destruct rest as [|c rest]; cbn; [tauto | intros ->; auto]. Qed.

Lemma digit_not_minus c : is_digit c = true -> mem (Lit "-"%char) c = false.
Proof.
  intros H. unfold mem.
  destruct (Ascii.eqb_spec "-"%char c) as [<-|]; [discriminate H | reflexivity].
Qed.

Lemma digit_not_space c : is_digit c = true -> is_space c = false.
Proof.
  destruct c as [[] [] [] [] [] [] [] []]; vm_compute; congruence.
Qed.

(** One component, followed by the end of the input or by the comma. *)
Lemma component_match minus whole frac rest f r :
  well_formed whole frac = true -> boundary rest ->
  f (component minus whole frac) rest = Some r ->
  m_seq coord_component "" (component minus whole frac ++ rest) f = Some r.
Proof.
  unfold well_formed, component. intros W B F.
  apply andb_prop in W as [W Hf]. apply andb_prop in W as [Hne Hw].
  destruct whole as [|c w]; [discriminate|]. clear Hne.
  cbn in Hw. apply andb_prop in Hw as [Hc Hw].
  destruct (boundary_stops rest B) as (Sd & Sp & _).
  (* from the dot on *)
  assert (T : forall acc,
    f (acc ++ match frac with Some d => "." ++ d | None => "" end) rest = Some r ->
    opt (Lit "."%char) acc
      (match frac with Some d => "." ++ d | None => "" end ++ rest)
      (fun acc' s' => star Digit acc' s' f) = Some r).
  { intros acc Fa. destruct frac as [d|].
    - cbn [append]. apply opt_take; [reflexivity|].
      apply star_all; [exact Hf | exact Sd |].
      unfold snoc. rewrite append_assoc. exact Fa.
    - cbn [append]. rewrite opt_skip by exact Sp.
      apply (star_all Digit "" acc rest f r eq_refl Sd). exact Fa. }
  (* the digits before it *)
  assert (S : forall acc,
    f (acc ++ String c w ++ match frac with Some d => "." ++ d | None => "" end)
      rest = Some r ->
    plus Digit acc
      (String c w ++ match frac with Some d => "." ++ d | None => "" end ++ rest)
      (fun acc' s' => opt (Lit "."%char) acc' s'
                        (fun acc'' s'' => star Digit acc'' s'' f)) = Some r).
  { intros acc Fa. unfold plus. cbn [append one]. change (mem Digit c) with (is_digit c).
    rewrite Hc. apply star_all.
    - exact Hw.
    - destruct frac; cbn; [reflexivity|].
      destruct rest as [|x rest]; cbn in *; [exact Logic.I | now subst x].
    - apply T. unfold snoc. rewrite !append_assoc. exact Fa. }
  cbn [coord_component m_seq m_atom fst snd].
  rewrite !append_assoc.
  destruct minus.
  - cbn [append]. apply opt_take; [reflexivity|]. apply S. exact F.
  - cbn [append]. rewrite opt_skip by (cbn; now apply digit_not_minus).
    apply S. exact F.
Qed.
End RegexComplete.

Lemma coordMatch_complete
    (m1 : bool) (w1 : string) (f1 : option string) (ws : string)
    (m2 : bool) (w2 : string) (f2 : option string) :
  Pattern.well_formed w1 f1 = true -> Pattern.blanks ws = true ->
  Pattern.well_formed w2 f2 = true ->
  coordMatch (Pattern.component m1 w1 f1 ++ "," ++ ws
              ++ Pattern.component m2 w2 f2)
  = Some (Pattern.component m1 w1 f1, Pattern.component m2 w2 f2).
Proof.
  intros W1 B W2. unfold coordMatch, Regex.exec, coord_re.
  cbn [Regex.m_pieces].
  rewrite (component_match m1 w1 f1 _ _
             [Pattern.component m1 w1 f1; Pattern.component m2 w2 f2] W1);
    [reflexivity | reflexivity |].
  cbn [Regex.m_seq Regex.m_atom fst snd append Regex.one].
  change (Regex.mem (Regex.Lit ","%char) ","%char) with true. cbn iota.
  apply star_all.
  - exact B.
  - unfold Pattern.well_formed in W2.
    apply andb_prop in W2 as [W2 _]. apply andb_prop in W2 as [Hne Hw].
    unfold Pattern.component. destruct m2; [reflexivity|].
    destruct w2 as [|c w]; [discriminate|]. cbn in Hw |- *.
    apply andb_prop in Hw as [Hc _]. now apply digit_not_space.
  - cbn [Regex.m_pieces].
    rewrite <- (append_nil_r (Pattern.component m2 w2 f2)) at 1.
    apply (component_match m2 w2 f2 "" _ _ W2 Logic.I). reflexivity.
Qed.

(** *** The pattern accepts nothing else *)

Section RegexSound.
Context {R : Type}.
Implicit Types (f : @Regex.cont R) (acc s : string) (r : R).
Import Regex.

Lemma consumes_here f (L : string -> Prop) acc s r :
  L "" -> f acc s = Some r -> consumes f L acc s r.
Proof.
  intros HL F. exists "", s. rewrite append_nil_r. auto.
Qed.

Lemma one_sound k acc s f r :
  one k acc s f = Some r -> consumes f (lang_atom (k, One)) acc s r.
Proof.
  destruct s as [|c s']; cbn; [discriminate|].
  destruct (mem k c) eqn:M; [|discriminate]. intros F.
  exists (String c ""), s'. repeat split; [|exact F].
  exists c. auto.
Qed.

Lemma opt_sound k acc s f r :
  opt k acc s f = Some r -> consumes f (lang_atom (k, Opt)) acc s r.
Proof.
  assert (Hskip : f acc s = Some r -> consumes f (lang_atom (k, Opt)) acc s r).
  { apply consumes_here. now left. }
  destruct s as [|c s']; cbn; [exact Hskip|].
  destruct (mem k c) eqn:M; [|exact Hskip].
  destruct (f (snoc acc c) s') as [r'|] eqn:F; [|exact Hskip].
  intros [= <-]. exists (String c ""), s'. repeat split; [|exact F].
  right. exists c. auto.
Qed.

Lemma star_sound k s : forall acc f r,
  star k acc s f = Some r -> consumes f (lang_atom (k, Star)) acc s r.
Proof.
  induction s as [|c s' IH]; intros acc f r; cbn.
  - now apply consumes_here.
  - assert (Hskip : f acc (String c s') = Some r ->
                    consumes f (lang_atom (k, Star)) acc (String c s') r).
    { now apply consumes_here. }
    destruct (mem k c) eqn:M; [|exact Hskip].
    destruct (star k (snoc acc c) s' f) as [r'|] eqn:E; [|exact Hskip].
    intros [= <-]. destruct (IH _ _ _ E) as (w & t & -> & HL & F).
    exists (String c w), t. repeat split.
    + cbn in *. now rewrite M.
    + unfold snoc in F. now rewrite append_assoc in F.
Qed.

Lemma plus_sound k acc s f r :
  plus k acc s f = Some r -> consumes f (lang_atom (k, Plus)) acc s r.
Proof.
  unfold plus. intros H.
  destruct (one_sound _ _ _ _ _ H) as (u & t & -> & (c & -> & M) & F).
  destruct (star_sound _ _ _ _ _ F) as (w & t' & -> & HL & F').
  exists (String c w), t'. repeat split.
  - exists c, w. auto.
  - now rewrite append_assoc in F'.
Qed.

Lemma m_atom_sound a acc s f r :
  m_atom a acc s f = Some r -> consumes f (lang_atom a) acc s r.
Proof.
  destruct a as [k q]. unfold m_atom. cbn [fst snd]. destruct q.
  - apply one_sound.
  - apply opt_sound.
  - apply star_sound.
  - apply plus_sound.
Qed.

Lemma m_seq_sound ps : forall acc s f r,
  m_seq ps acc s f = Some r -> consumes f (lang_seq ps) acc s r.
Proof.
  induction ps as [|a ps IH]; intros acc s f r; cbn [m_seq].
  - now apply consumes_here.
  - intros H.
    destruct (m_atom_sound _ _ _ _ _ H) as (u & t & -> & HL & F).
    destruct (IH _ _ _ _ F) as (v & t' & -> & HL' & F').
    exists (u ++ v), t'. repeat split.
    + now rewrite append_assoc.
    + exists u, v. auto.
    + now rewrite append_assoc in F'.
Qed.
End RegexSound.

Lemma all_app (p : ascii -> bool) (a b : string) :
  Regex.all p (a ++ b) = Regex.all p a && Regex.all p b.
Proof.
  induction a as [|c a IH]; cbn; [reflexivity|].
  now rewrite IH, andb_assoc.
Qed.

(** A text of the component's language, in the terms of [Pattern]. *)
Lemma component_sound (g : string) :
  Regex.lang_seq coord_component g ->
  exists minus whole frac,
    g = Pattern.component minus whole frac /\
    Pattern.well_formed whole frac = true.
Proof.
  unfold coord_component. cbn [Regex.lang_seq].
  unfold Regex.lang_atom. cbn [fst snd].
  intros (u1 & v1 & -> & H1 & u2 & v2 & -> & (c & w & -> & Hc & Hw)
          & u3 & v3 & -> & H3 & u4 & v4 & -> & H4 & ->).
  rewrite append_nil_r.
  assert (E1 : exists minus : bool, u1 = if minus then "-" else "").
  { destruct H1 as [->|(x & -> & Hx)]; [now exists false|].
    unfold Regex.mem in Hx. apply Ascii.eqb_eq in Hx. subst x. now exists true. }
  destruct E1 as [minus ->]. exists minus.
  assert (Hc' : Regex.is_digit c = true) by exact Hc.
  assert (Hw' : Regex.all Regex.is_digit w = true) by exact Hw.
  assert (H4' : Regex.all Regex.is_digit u4 = true) by exact H4.
  destruct H3 as [->|(x & -> & Hx)].
  - exists (String c w ++ u4), None. split.
    + unfold Pattern.component. now rewrite append_nil_r.
    + unfold Pattern.well_formed, Pattern.digits.
      rewrite all_app. cbn [Regex.all]. rewrite Hc', Hw', H4'. reflexivity.
  - unfold Regex.mem in Hx. apply Ascii.eqb_eq in Hx. subst x.
    exists (String c w), (Some u4). split; [reflexivity|].
    unfold Pattern.well_formed, Pattern.digits.
    cbn [Regex.all]. rewrite Hc', Hw', H4'. reflexivity.
Qed.

(** X1.  What [coordMatch] accepts and what it captures: exactly the
    texts made of a component, a comma, any white space and a second
    component, where a component is an optional minus, one or more
    digits and optionally a dot with any number of digits; the two
    captures are the two components. *)
Theorem coordMatch_spec (q g1 g2 : string) :
  coordMatch q = Some (g1, g2) <->
  exists m1 w1 f1 ws m2 w2 f2,
    g1 = Pattern.component m1 w1 f1 /\ g2 = Pattern.component m2 w2 f2 /\
    q = g1 ++ "," ++ ws ++ g2 /\
    Pattern.well_formed w1 f1 = true /\ Pattern.blanks ws = true /\
    Pattern.well_formed w2 f2 = true.
Proof.
  split.
  - unfold coordMatch, Regex.exec, coord_re. cbn [Regex.m_pieces].
    destruct (Regex.m_seq coord_component "" q _) as [caps|] eqn:E;
      [|discriminate].
    apply m_seq_sound in E as (a & s1 & -> & La & E). cbn [append] in E.
    apply m_seq_sound in E as (b & s2 & -> & Lb & E).
    apply m_seq_sound in E as (c & s3 & -> & Lc & E). cbn [append] in E.
    destruct s3; [|discriminate]. injection E as <-. cbn [app].
    intros [= <- <-].
    apply component_sound in La as (m1 & w1 & f1 & -> & W1).
    apply component_sound in Lc as (m2 & w2 & f2 & -> & W2).
    cbn [Regex.lang_seq] in Lb. unfold Regex.lang_atom in Lb.
    cbn [fst snd] in Lb.
    destruct Lb as (u & v & -> & (x & -> & Hx) & ws & t & -> & Hws & ->).
    unfold Regex.mem in Hx. apply Ascii.eqb_eq in Hx. subst x.
    exists m1, w1, f1, ws, m2, w2, f2.
    rewrite !append_nil_r. repeat split; assumption.
  - intros (m1 & w1 & f1 & ws & m2 & w2 & f2 & -> & -> & -> & W1 & B & W2).
    now apply coordMatch_complete.
Qed.

(** ** The location field *)

Section LocationInputFacts.
Context {Num : JS.Numbers}.
Import LocationInput.

Ltac case_if :=
  match goal with
  | |- context [if ?b then _ else _] => destruct b
  end.

Lemma searchEffect_long (s : State) :
  2 < String.length (query s) ->
  searchEffect s = setTimer (Some (query s)) s.
Proof.
  unfold searchEffect. intros H.
  destruct (Nat.ltb_spec 2 (String.length (query s))); [reflexivity | lia].
Qed.

Lemma searchEffect_short (s : State) :
  String.length (query s) <= 2 ->
  searchEffect s = setShowResults false (setResults [] (setTimer None s)).
Proof.
  unfold searchEffect. intros H.
  destruct (Nat.ltb_spec 2 (String.length (query s))); [lia | reflexivity].
Qed.

Lemma setQuery_same (s : State) : setQuery (query s) s = s.
Proof. unfold setQuery. now rewrite String.eqb_refl. Qed.

Lemma setQuery_changed (q : string) (s : State) :
  query s <> q -> setQuery q s = searchEffect (setQueryText q s).
Proof.
  unfold setQuery. intros H.
  destruct (String.eqb_spec (query s) q); [contradiction | reflexivity].
Qed.

(** [setQuery] and the effect it may run touch the query, the timer, the
    result list and the dropdown, and nothing else. *)
Lemma setQuery_frame (q : string) (s : State) :
  query (setQuery q s) = q /\
  value (setQuery q s) = value s /\
  isSearching (setQuery q s) = isSearching s /\
  inflight (setQuery q s) = inflight s /\
  requests (setQuery q s) = requests s /\
  emitted (setQuery q s) = emitted s.
Proof.
  unfold setQuery, searchEffect.
  destruct (String.eqb_spec (query s) q) as [->|]; [repeat split; assumption || reflexivity|].
  case_if; cbn; repeat split; assumption || reflexivity.
Qed.

Lemma setQuery_timer (q : string) (s : State) :
  query s <> q ->
  searchTimeout (setQuery q s) =
    if (2 <? String.length q)%nat then Some q else None.
Proof.
  intros H. rewrite setQuery_changed by exact H.
  unfold searchEffect. cbn [query setQueryText]. now case_if.
Qed.

(** A result list that is empty and a dropdown that is closed stay so
    under [setQuery]. *)
Lemma setQuery_cleared (q : string) (s : State) :
  results s = [] -> showResults s = false ->
  results (setQuery q s) = [] /\ showResults (setQuery q s) = false.
Proof.
  intros Hr Hs. unfold setQuery, searchEffect.
  destruct (String.eqb (query s) q); [repeat split; assumption || reflexivity|].
  case_if; cbn; repeat split; assumption || reflexivity.
Qed.

Lemma setQuery_closed (q : string) (s : State) :
  showResults s = false -> showResults (setQuery q s) = false.
Proof.
  intros Hs. unfold setQuery, searchEffect.
  destruct (String.eqb (query s) q); [exact Hs|].
  case_if; cbn; [exact Hs | reflexivity].
Qed.

Lemma setQuery_gated (q : string) (s : State) :
  gated s -> gated (setQuery q s).
Proof.
  intros [Ht Hr]. split.
  - destruct (String.eqb_spec (query s) q) as [<-|Hne].
    + rewrite setQuery_same. exact Ht.
    + rewrite setQuery_timer by exact Hne.
      destruct (setQuery_frame q s) as (-> & _).
      destruct (Nat.ltb_spec 2 (String.length q)); intros q' [=]; subst; auto.
  - destruct (setQuery_frame q s) as (_ & _ & _ & _ & -> & _). exact Hr.
Qed.

Lemma step_gated (s : State) (e : Event) : gated s -> gated (step s e).
Proof.
  intros G. destruct e; cbn [step].
  - apply setQuery_gated. exact G.
  - apply setQuery_gated. exact G.
  - destruct (searchTimeout s) as [q|] eqn:T; [|exact G].
    destruct G as [Ht Hr]. destruct (Ht q T) as [-> Hlen].
    unfold fireTimer. destruct (coordLocation (query s)).
    + apply setQuery_gated. split; [cbn; discriminate | exact Hr].
    + split; [cbn; discriminate|]. cbn.
      apply Forall_app. split; [exact Hr | now constructor].
  - destruct (lookup call (inflight s)); exact G.
  - unfold handleSelectResult, syncValue. apply setQuery_gated.
    refine (setQuery_gated (SearchResult.display_name result) (emit _ s) _).
    exact G.
  - unfold handleClear, syncValue. apply setQuery_gated.
    refine (setQuery_gated "" s G).
  - exact G.
Qed.

Lemma run_gated (es : list Event) : forall s, gated s -> gated (run s es).
Proof.
  induction es as [|e es IH]; intros s G; [exact G|].
  apply IH, step_gated, G.
Qed.

Lemma lookup_last (n : nat) (q : string) (l : list (nat * string)) :
  exists q', lookup n (l ++ [(n, q)]) = Some q'.
Proof.
  induction l as [|[m x] l IH]; cbn.
  - rewrite Nat.eqb_refl. eauto.
  - destruct (m =? n)%nat; eauto.
Qed.

Lemma mounted_gated : gated mounted.
Proof. split; [cbn; discriminate | constructor]. Qed.

End LocationInputFacts.

Section LocationInputClaims.
Context {Num : JS.Numbers}.
Import LocationInput.

(** C8.  When the text of the field becomes a query of at most two
    characters, the result list is emptied, the dropdown is closed and no
    timer is left armed, so that nothing fires: no location is emitted,
    no call reaches the geocoding service, and every call that ever
    reached it carried a query of more than two characters. *)
Theorem short_query_triggers_no_search (es : list Event) (q : string) :
  String.length q <= 2 ->
  query (run mounted es) <> q ->
  let s := run mounted es in
  let s' := step s (InputChanged q) in
  query s' = q /\
  results s' = [] /\ showResults s' = false /\
  searchTimeout s' = None /\ step s' TimerFired = s' /\
  requests s' = requests s /\ inflight s' = inflight s /\
  emitted s' = emitted s /\
  Forall (fun r => 2 < String.length r) (requests s').
Proof.
  intros Hlen Hne s s'.
  assert (E : s' = setShowResults false
                     (setResults [] (setTimer None (setQueryText q s)))).
  { unfold s'. cbn [step]. rewrite setQuery_changed by exact Hne.
    apply searchEffect_short. exact Hlen. }
  clearbody s'. subst s'. repeat split.
  apply (run_gated es mounted mounted_gated).
Qed.

(** C5.  When the timer fires for a query that the coordinate pattern
    accepts (see [coordMatch_spec] for what these are) and whose two
    numbers pass the range test, the parsed location is passed to
    [onChange], the geocoding service is not called, the result list is
    emptied and the dropdown closed.  Such a query always has the three
    characters that arm the timer. *)
Theorem coordinate_short_circuit (s : State) (q g1 g2 : string) :
  searchTimeout s = Some q ->
  coordMatch q = Some (g1, g2) ->
  inRange (JS.parseFloat g1) (JS.parseFloat g2) = true ->
  let l := {| lat := JS.parseFloat g1; lng := JS.parseFloat g2;
              address := Some (coordText (JS.parseFloat g1)
                                         (JS.parseFloat g2)) |} in
  let s' := step s TimerFired in
  2 < String.length q /\
  emitted s' = (emitted s ++ [Some l])%list /\ value s' = Some l /\
  requests s' = requests s /\ inflight s' = inflight s /\
  results s' = [] /\ showResults s' = false /\ isSearching s' = false.
Proof.
  intros T M R l s'. split; [eapply coordMatch_length; eassumption|].
  subst s'. cbn [step]. rewrite T. unfold fireTimer, coordLocation.
  rewrite M, R. fold l. unfold syncValue.
  match goal with |- context [setQuery ?t ?x] =>
    destruct (setQuery_frame t x) as (_ & Hv & Hi & Hf & Hr & He);
    destruct (setQuery_cleared t x eq_refl eq_refl) as (Hc & Hd)
  end.
  rewrite Hv, Hi, Hf, Hr, He, Hc, Hd. repeat split.
Qed.

(** C10.  When the timer fires for a query that the coordinate pattern
    accepts but whose numbers fail the range test, no location is
    emitted: the query goes to the geocoding service as any other text,
    and the answer is applied as any other answer. *)
Theorem out_of_range_falls_through (s : State) (q g1 g2 : string) :
  searchTimeout s = Some q ->
  coordMatch q = Some (g1, g2) ->
  inRange (JS.parseFloat g1) (JS.parseFloat g2) = false ->
  let n := List.length (requests s) in
  let s' := step s TimerFired in
  emitted s' = emitted s /\ value s' = value s /\ query s' = query s /\
  requests s' = (requests s ++ [q])%list /\
  inflight s' = (inflight s ++ [(n, q)])%list /\
  isSearching s' = true /\
  forall answer,
    results (step s' (SearchResolved n answer)) = searchLocation answer /\
    isSearching (step s' (SearchResolved n answer)) = false.
Proof.
  intros T M R n s'.
  assert (E : s' = setInflight (inflight s ++ [(n, q)])
                     (setRequests (requests s ++ [q])
                        (setIsSearching true (setTimer None s)))).
  { unfold s'. cbn [step]. rewrite T. unfold fireTimer, coordLocation.
    now rewrite M, R. }
  clearbody s'. subst s'. repeat split; cbn [step inflight setInflight];
    destruct (lookup_last n q (inflight s)) as [q' ->]; reflexivity.
Qed.

(** C1, as the code has it.  The armed timer is always the one of the
    query on display, and changing the query replaces it, so a search
    that has not fired is never issued for the old query.  A search that
    has been issued is applied when it resolves, whatever the query is by
    then: the result list becomes the answer, the dropdown is opened
    exactly when the answer is not empty, and [isSearching] becomes
    false. *)
Theorem issued_search_is_applied
    (es : list Event) (call : nat) (q : string)
    (answer : option (list SearchResult.t)) :
  let s := run mounted es in
  lookup call (inflight s) = Some q ->
  let s' := step s (SearchResolved call answer) in
  results s' = searchLocation answer /\
  showResults s' = negb (isEmpty (searchLocation answer)) /\
  isSearching s' = false /\
  query s' = query s /\
  (forall q0, searchTimeout s = Some q0 -> q0 = query s) /\
  (forall q', query s <> q' ->
     searchTimeout (step s (InputChanged q')) =
       if (2 <? String.length q')%nat then Some q' else None).
Proof.
  intros s L s'. subst s'. cbn [step]. rewrite L.
  repeat split.
  - intros q0 T. now apply (run_gated es mounted mounted_gated).
  - intros q' Hne. now apply setQuery_timer.
Qed.

(** C7, as the code has it.  When the parent passes a new [value], the
    text of the field becomes its address if that is a non-empty string,
    else the two numbers separated by a comma and a space, else the
    empty string for [null].  The synchronisation itself emits nothing
    and calls no service; but a text that differs from the one
    displayed is a query change like any other, and arms the timer when
    it has more than two characters. *)
Theorem value_sync (s : State) (v : option Location) :
  let s' := step s (ValueChanged v) in
  value s' = v /\
  (forall l a, v = Some l -> address l = Some a -> a <> "" ->
               query s' = a) /\
  (forall l, v = Some l -> address l = None \/ address l = Some "" ->
             query s' = JS.toString (lat l) ++ ", " ++ JS.toString (lng l)) /\
  (v = None -> query s' = "") /\
  requests s' = requests s /\ inflight s' = inflight s /\
  emitted s' = emitted s /\
  (query s <> query s' ->
   searchTimeout s' =
     if (2 <? String.length (query s'))%nat then Some (query s') else None) /\
  (query s = query s' -> searchTimeout s' = searchTimeout s).
Proof.
  intros s'. subst s'. cbn [step]. unfold syncValue.
  destruct (setQuery_frame (displayText v) (setValue v s))
    as (Hq & Hv & _ & Hf & Hr & He).
  rewrite Hq, Hv, Hf, Hr, He. repeat split.
  - intros l a -> Ha Hne. cbn. rewrite Ha.
    apply truthy_nonempty in Hne. now rewrite Hne.
  - intros l -> [Ha|Ha]; cbn; rewrite Ha; reflexivity.
  - now intros ->.
  - intros Hne. now apply (setQuery_timer _ (setValue v s)).
  - intros Heq.
    change (query s) with (query (setValue v s)) in Heq.
    rewrite <- Heq, setQuery_same. reflexivity.
Qed.

(** C9, as the code has it.  Selecting a result passes to [onChange] the
    location made of the parsed [lat] and [lon] and of the display name,
    and closes the dropdown; when the display name is not empty, the text
    derived from that location is the display name, and it is the text of
    the field once the selection has been rendered. *)
Theorem select_result_round_trip (s : State) (r : SearchResult.t) :
  let l := {| lat := JS.parseFloat (SearchResult.lat r);
              lng := JS.parseFloat (SearchResult.lon r);
              address := Some (SearchResult.display_name r) |} in
  let s' := step s (ResultClicked r) in
  emitted s' = (emitted s ++ [Some l])%list /\ value s' = Some l /\
  showResults s' = false /\
  (SearchResult.display_name r <> "" ->
   displayText (Some l) = SearchResult.display_name r /\
   query s' = SearchResult.display_name r).
Proof.
  intros l s'. subst s'. cbn [step]. unfold handleSelectResult, syncValue.
  fold l.
  set (s1 := setQuery (SearchResult.display_name r) (emit (Some l) s)).
  set (s2 := setValue (Some l) (setShowResults false s1)).
  destruct (setQuery_frame (displayText (Some l)) s2)
    as (Hq & Hv & _ & _ & _ & He).
  destruct (setQuery_frame (SearchResult.display_name r) (emit (Some l) s))
    as (_ & _ & _ & _ & _ & He').
  rewrite Hv, He, Hq.
  split; [exact He'|]. split; [reflexivity|].
  split; [now apply setQuery_closed|].
  intros Hne. apply truthy_nonempty in Hne. cbn. rewrite Hne. now split.
Qed.

End LocationInputClaims.

(** ** The planning session *)

Section AppFacts.
Context {Num : JS.Numbers}.
Import App.

Lemma routeEqb_eq (a b : RouteOption) : routeEqb a b = true -> a = b.
Proof.
  unfold routeEqb. intros H.
  apply andb_prop in H as [H H4]. apply andb_prop in H as [H H3].
  apply andb_prop in H as [H1 H2].
  apply String.eqb_eq in H1, H2, H3, H4.
  destruct a, b; cbn in *; congruence.
Qed.

Lemma routeOffered_listed (route : RouteOption) (s : State) :
  routeOffered route s = true ->
  exists d, routeData s = Some d /\ In route (route_options d).
Proof.
  unfold routeOffered. destruct (routeData s) as [d|]; [|discriminate].
  intros H. apply existsb_exists in H as (x & Hin & Heq).
  apply routeEqb_eq in Heq. subst x. eauto.
Qed.

(** [handlePlanRoute] touches the message, the loading flag and the
    calls, never the result or the selection. *)
Lemma handlePlanRoute_frame (s : State) :
  routeData (handlePlanRoute s) = routeData s /\
  selectedRoute (handlePlanRoute s) = selectedRoute s.
Proof.
  unfold handlePlanRoute.
  destruct (startLocation s), (endLocation s), (selectedModes s);
    split; reflexivity.
Qed.

(** What [handlePlanRoute] does to the calls. *)
Lemma handlePlanRoute_calls (s : State) :
  (inflight (handlePlanRoute s) = inflight s /\
   calls (handlePlanRoute s) = calls s) \/
  (inflight (handlePlanRoute s) = (inflight s ++ [List.length (calls s)])%list /\
   List.length (calls (handlePlanRoute s)) = S (List.length (calls s)) /\
   isLoading (handlePlanRoute s) = true /\
   error (handlePlanRoute s) = None).
Proof.
  unfold handlePlanRoute.
  destruct (startLocation s), (endLocation s), (selectedModes s);
    try (left; split; reflexivity).
  right. cbn. rewrite length_app. cbn. repeat split. lia.
Qed.

Lemma wired_app (es : list Event) : forall s e,
  wired s (es ++ [e]) = wired s es && offered (run s es) e.
Proof.
  induction es as [|x es IH]; intros s e; cbn.
  - now rewrite andb_true_r.
  - rewrite IH. now rewrite andb_assoc.
Qed.

Lemma handlePlanRoute_oneLive (s : State) :
  inflight s = [] -> oneLive (handlePlanRoute s).
Proof.
  intros H. destruct (handlePlanRoute_calls s) as [[Hi _]|(Hi & Hc & Hl & He)].
  - left. congruence.
  - right. rewrite Hi, Hc, H, Hl, He. cbn. rewrite Nat.sub_0_r.
    repeat split. lia.
Qed.

Lemma step_oneLive (s : State) (e : Event) :
  oneLive s -> offered s e = true -> oneLive (step s e).
Proof.
  intros I O. destruct e; cbn [step offered] in *; try exact I.
  - (* the plan button is disabled while loading *)
    apply handlePlanRoute_oneLive.
    destruct I as [I|(_ & _ & L & _)]; [exact I|].
    unfold planEnabled in O. rewrite L in O.
    rewrite andb_false_r in O. discriminate.
  - rewrite O. left. unfold resumePlanRoute.
    assert (F : filter (fun c => negb (c =? call)%nat) (inflight s) = []).
    { unfold awaited in O. destruct I as [I|(I & _)]; rewrite I in *.
      - discriminate.
      - cbn in O. rewrite orb_false_r in O. cbn.
        rewrite Nat.eqb_sym, O. reflexivity. }
    destruct o; cbn; exact F.
  - (* the retry action exists only under a message *)
    unfold handleRetry. apply handlePlanRoute_oneLive.
    destruct I as [I|(_ & _ & _ & E)]; [exact I|].
    unfold retryOffered in O. rewrite E in O. discriminate.
Qed.

Lemma run_oneLive (es : list Event) : forall s,
  oneLive s -> wired s es = true -> oneLive (run s es).
Proof.
  induction es as [|e es IH]; intros s I W; [exact I|].
  cbn in W. apply andb_prop in W as [O W].
  apply IH; [apply step_oneLive; assumption | exact W].
Qed.

Lemma step_listed (s : State) (e : Event) :
  listed s -> offered s e = true -> recommendsListed e -> listed (step s e).
Proof.
  unfold listed. intros I O B. destruct e; cbn [step offered] in *; try exact I.
  - destruct (handlePlanRoute_frame s) as [-> ->]. exact I.
  - rewrite O. destruct o as [response|err]; cbn in *; [|exact Logic.I].
    exact B.
  - apply routeOffered_listed in O as (d & Hd & Hin). cbn. now rewrite Hd.
  - unfold handleRetry.
    destruct (handlePlanRoute_frame (setError None s)) as [-> ->]. exact I.
Qed.

Lemma run_listed (es : list Event) : forall s,
  listed s -> wired s es = true -> Forall recommendsListed es ->
  listed (run s es).
Proof.
  induction es as [|e es IH]; intros s I W B; [exact I|].
  cbn in W. apply andb_prop in W as [O W]. inversion B; subst.
  apply IH; [apply step_listed; assumption | exact W | assumption].
Qed.

Lemma step_quiet (s : State) (e : Event) :
  quiet e = true -> selectedRoute (step s e) = selectedRoute s.
Proof.
  destruct e; cbn; intros Q; try reflexivity; try discriminate.
  - apply handlePlanRoute_frame.
  - unfold handleRetry.
    destruct (handlePlanRoute_frame (setError None s)) as [_ ->]. reflexivity.
Qed.

Lemma run_quiet (es : list Event) : forall s,
  forallb quiet es = true -> selectedRoute (run s es) = selectedRoute s.
Proof.
  induction es as [|e es IH]; intros s Q; [reflexivity|].
  cbn in Q. apply andb_prop in Q as [Qe Q].
  change (run s (e :: es)) with (run (step s e) es).
  rewrite IH by exact Q. now apply step_quiet.
Qed.

End AppFacts.

Section AppClaims.
Context {Num : JS.Numbers}.
Import App.

(** What settling a call leaves as result and as selection. *)
Lemma settle_applied (s : State) (call : nat) (o : Outcome) :
  awaited call s = true ->
  let s' := step s (PlanSettled call o) in
  routeData s' = match o with
                 | Fulfilled response => Some response
                 | Rejected _ => None
                 end /\
  selectedRoute s' = match o with
                     | Fulfilled response => recommended_route response
                     | Rejected _ => None
                     end /\
  isLoading s' = false.
Proof.
  intros A s'. subst s'. cbn [step]. rewrite A.
  destruct o; repeat split.
Qed.

(** C2, as the code has it.  [handleRouteSelect] stores the route it is
    given without consulting the result on display.  Along every
    sequence of events that the page offers, and with a backend that
    recommends one of the options it returns or nothing, a selected
    route is one of the options of the result on display. *)
Theorem selection_listed_when_wired (es : list Event) (route : RouteOption) :
  wired initial es = true ->
  Forall recommendsListed es ->
  let s := run initial es in
  listed s /\
  selectedRoute (step s (RouteClicked route)) = Some route /\
  routeData (step s (RouteClicked route)) = routeData s.
Proof.
  intros W B s. repeat split.
  apply run_listed; [exact I | exact W | exact B].
Qed.

(** C3, as the code has it.  When a plan call is rejected, [setError] is
    given the [detail] of the response body as it is whenever that is
    truthy: a non-empty string, which is then the message, or a value of
    another type, such as the list a failed validation answers with.  It
    is given the fallback message when there is no [detail] or a falsy
    one, the empty string included.  The result and the selection become
    [null]. *)
Theorem plan_failure (s : State) (call : nat) (err : AxiosError) :
  awaited call s = true ->
  let s' := step s (PlanSettled call (Rejected err)) in
  (forall v, detailOf err = Some v -> JSON.truthy v = true ->
             error s' = Some v) /\
  (forall d, detailOf err = Some (JSON.Str d) -> d <> "" ->
             error s' = Some (JSON.Str d)) /\
  (detailOf err = None \/
   (exists v, detailOf err = Some v /\ JSON.truthy v = false) ->
   error s' = Some planFailed) /\
  routeData s' = None /\ selectedRoute s' = None /\ isLoading s' = false.
Proof.
  intros A s'. subst s'. cbn [step]. rewrite A.
  assert (T : forall v, detailOf err = Some v -> JSON.truthy v = true ->
              error (resumePlanRoute (Rejected err)
                       (setInflight
                          (filter (fun c => negb (c =? call)%nat) (inflight s))
                          s)) = Some v).
  { intros v Hd Ht. cbn. rewrite Hd. cbn. now rewrite Ht. }
  split; [exact T|]. split; [|repeat split].
  - intros d Hd Hne. apply T; [exact Hd|]. cbn. now apply truthy_nonempty.
  - intros [Hd|(v & Hd & Hf)]; cbn; rewrite Hd; cbn; [|rewrite Hf]; reflexivity.
Qed.


(** C6.  When a plan call is fulfilled, the selected route is the
    recommended route of the response, [null] included.  When the user
    then selects a route, that route is the selected one, and stays so
    through every event that neither settles a plan nor selects a
    route, renders and the start of a new plan included; the next call
    that settles replaces it. *)
Theorem selection_reconciliation
    (s : State) (call : nat) (response : EcoRouteResponse)
    (route : RouteOption) (es : list Event) :
  awaited call s = true ->
  forallb quiet es = true ->
  let s1 := step s (PlanSettled call (Fulfilled response)) in
  let s2 := step s1 (RouteClicked route) in
  let s3 := run s2 es in
  selectedRoute s1 = recommended_route response /\
  routeData s1 = Some response /\
  selectedRoute s2 = Some route /\
  selectedRoute s3 = Some route /\
  forall call' o, awaited call' s3 = true ->
    selectedRoute (step s3 (PlanSettled call' o)) =
      match o with
      | Fulfilled response' => recommended_route response'
      | Rejected _ => None
      end.
Proof.
  intros A Q s1 s2 s3.
  destruct (settle_applied s call (Fulfilled response) A) as (Hd & Hr & _).
  repeat split; try assumption.
  - unfold s3. rewrite run_quiet by exact Q. reflexivity.
  - intros call' o A'. apply (settle_applied s3 call' o A').
Qed.

End AppClaims.

(** ** The claims on sample runs *)

Section LocationInputRuns.
Import LocationInput Sample.

(** C8 on the text ["ch"], typed after a search for ["che"] was issued. *)
Lemma short_query_triggers_no_search_witness :
  let es := [InputChanged "che"; TimerFired] in
  let s' := step (run mounted es) (InputChanged "ch") in
  String.length "ch" <= 2 /\ query (run mounted es) <> "ch" /\
  results s' = [] /\ showResults s' = false /\ searchTimeout s' = None /\
  requests s' = ["che"].
Proof.
  assert (L : String.length "ch" <= 2) by (cbn; apply le_n).
  assert (D : query (run mounted [InputChanged "che"; TimerFired]) <> "ch")
    by (vm_compute; discriminate).
  pose proof (short_query_triggers_no_search
                [InputChanged "che"; TimerFired] "ch" L D)
    as (_ & Hr & Hs & Ht & _ & Hq & _).
  repeat split; assumption || (rewrite Hq; reflexivity).
Defined.

(** C5 on the text ["13.05, 80.27"]. *)
Lemma coordinate_short_circuit_witness :
  let s := step mounted (InputChanged "13.05, 80.27") in
  let s' := step s TimerFired in
  searchTimeout s = Some "13.05, 80.27" /\
  coordMatch "13.05, 80.27" = Some ("13.05", "80.27") /\
  inRange (JS.parseFloat "13.05") (JS.parseFloat "80.27") = true /\
  emitted s' =
    [Some {| lat := Decimal.Fin 1305 2; lng := Decimal.Fin 8027 2;
             address := Some "13.05, 80.27" |}] /\
  requests s' = [] /\ results s' = [] /\ showResults s' = false.
Proof.
  assert (T : searchTimeout (step mounted (InputChanged "13.05, 80.27"))
              = Some "13.05, 80.27") by reflexivity.
  assert (M : coordMatch "13.05, 80.27" = Some ("13.05", "80.27"))
    by reflexivity.
  assert (R : inRange (JS.parseFloat "13.05") (JS.parseFloat "80.27") = true)
    by reflexivity.
  pose proof (coordinate_short_circuit _ _ _ _ T M R)
    as (_ & He & _ & Hq & _ & Hr & Hs & _).
  repeat split; assumption.
Defined.

(** C10 on the text ["95, 200"]. *)
Lemma out_of_range_falls_through_witness :
  let s := step mounted (InputChanged "95, 200") in
  let s' := step s TimerFired in
  searchTimeout s = Some "95, 200" /\
  coordMatch "95, 200" = Some ("95", "200") /\
  inRange (JS.parseFloat "95") (JS.parseFloat "200") = false /\
  emitted s' = [] /\ requests s' = ["95, 200"] /\
  inflight s' = [(0, "95, 200")].
Proof.
  assert (T : searchTimeout (step mounted (InputChanged "95, 200"))
              = Some "95, 200") by reflexivity.
  assert (M : coordMatch "95, 200" = Some ("95", "200")) by reflexivity.
  assert (R : inRange (JS.parseFloat "95") (JS.parseFloat "200") = false)
    by reflexivity.
  pose proof (out_of_range_falls_through _ _ _ _ T M R)
    as (He & _ & _ & Hq & Hf & _).
  repeat split; assumption.
Defined.

(** C1: the search for ["che"] is answered after the one for ["chen"],
    while the field reads ["chen"]; its answer replaces the results. *)
Lemma stale_search_is_applied :
  let s := run mounted
             [InputChanged "che"; TimerFired; InputChanged "chen";
              TimerFired; SearchResolved 1 (Some [hit "Chengalpattu"])] in
  let s' := step s (SearchResolved 0 (Some [hit "Chennai"])) in
  requests s = ["che"; "chen"] /\
  lookup 0 (inflight s) = Some "che" /\
  query s = "chen" /\ results s = [hit "Chengalpattu"] /\
  query s' = "chen" /\ results s' = [hit "Chennai"] /\
  showResults s' = true.
Proof. vm_compute. repeat split. Qed.

(** C1, amended, on the same run: the answer for ["che"] arrives while the
    field reads ["chen"]. *)
Lemma issued_search_is_applied_witness :
  let s := run mounted
             [InputChanged "che"; TimerFired; InputChanged "chen"] in
  let s' := step s (SearchResolved 0 (Some [hit "Chennai"])) in
  lookup 0 (inflight s) = Some "che" /\
  results s' = [hit "Chennai"] /\ isSearching s' = false /\
  query s' = "chen".
Proof.
  assert (L : lookup 0 (inflight (run mounted
                [InputChanged "che"; TimerFired; InputChanged "chen"]))
              = Some "che") by reflexivity.
  pose proof (issued_search_is_applied
                [InputChanged "che"; TimerFired; InputChanged "chen"]
                0 "che" (Some [hit "Chennai"]) L)
    as (Hr & _ & Hi & Hq & _).
  repeat split; assumption.
Defined.

(** C7: the parent passes a location whose address is ["Chennai"]; the
    timer is armed for that text and its firing calls the geocoding
    service.  An address that is the empty string is not displayed. *)
Lemma value_sync_starts_search :
  let s := step mounted (ValueChanged (Some chennai)) in
  let s' := step s TimerFired in
  query s = "Chennai" /\ searchTimeout s = Some "Chennai" /\
  requests s' = ["Chennai"] /\ inflight s' = [(0, "Chennai")] /\
  query (step mounted (ValueChanged (Some unnamed))) = "13.05, 80.27".
Proof. vm_compute. repeat split. Qed.

(** C7, amended, on the location of Chennai passed to an empty field. *)
Lemma value_sync_witness :
  let s' := step mounted (ValueChanged (Some chennai)) in
  query mounted <> query s' /\
  query s' = "Chennai" /\ searchTimeout s' = Some "Chennai".
Proof.
  pose proof (value_sync mounted (Some chennai))
    as (_ & Ha & _ & _ & _ & _ & _ & Ht & _).
  assert (Q : query (step mounted (ValueChanged (Some chennai))) = "Chennai").
  { apply (Ha chennai "Chennai"); [reflexivity | reflexivity | discriminate]. }
  assert (D : query mounted
              <> query (step mounted (ValueChanged (Some chennai))))
    by (rewrite Q; discriminate).
  split; [exact D|]. split; [exact Q|].
  rewrite (Ht D), Q. reflexivity.
Defined.

(** C9: a result whose display name is the empty string; the field
    shows the two numbers. *)
Lemma empty_name_is_not_redisplayed :
  let r := hit "" in
  let s := step mounted (ResultClicked r) in
  value s = Some {| lat := JS.parseFloat (SearchResult.lat r);
                    lng := JS.parseFloat (SearchResult.lon r);
                    address := Some (SearchResult.display_name r) |} /\
  displayText (value s) = "13.0836939, 80.270186" /\
  query s = "13.0836939, 80.270186" /\
  query s <> SearchResult.display_name r.
Proof. vm_compute. repeat split. discriminate. Qed.

(** C9, amended, on a result with a display name. *)
Lemma select_result_round_trip_witness :
  let r := hit "Chennai, Tamil Nadu, India" in
  let s' := step mounted (ResultClicked r) in
  SearchResult.display_name r <> "" /\
  query s' = "Chennai, Tamil Nadu, India" /\
  value s' = Some {| lat := Decimal.Fin 130836939 7;
                     lng := Decimal.Fin 80270186 6;
                     address := Some "Chennai, Tamil Nadu, India" |}.
Proof.
  assert (N : SearchResult.display_name (hit "Chennai, Tamil Nadu, India")
              <> "") by discriminate.
  pose proof (select_result_round_trip
                mounted (hit "Chennai, Tamil Nadu, India"))
    as (_ & Hv & _ & Hq).
  destruct (Hq N) as [_ Hq'].
  repeat split; assumption.
Defined.

End LocationInputRuns.

Section AppRuns.
Import App Sample.

(** C2: the result on display offers cycling only; a selection of the
    driving route is stored all the same. *)
Lemma unlisted_route_is_selected :
  let d := plan_of [cycling] in
  let s := run initial (filled ++ [PlanClicked; PlanSettled 0 (Fulfilled d)])%list in
  let s' := step s (RouteClicked driving) in
  routeData s = Some d /\ selectedRoute s = Some cycling /\
  ~ In (mode driving) (map mode (route_options d)) /\
  routeData s' = Some d /\ selectedRoute s' = Some driving /\
  selectedRoute s' <> selectedRoute s.
Proof.
  vm_compute. repeat split; try discriminate.
  intros [H|[]]. discriminate H.
Qed.

(** C2, amended, on a run of the page: a plan, then the third option is
    picked and the page is redrawn. *)
Lemma selection_listed_when_wired_witness :
  let es := (planned ++ [RouteClicked walking; Rendered])%list in
  wired initial es = true /\ Forall recommendsListed es /\
  listed (run initial es) /\
  selectedRoute (run initial es) = Some walking.
Proof.
  assert (W : wired initial (planned ++ [RouteClicked walking; Rendered])%list
              = true) by reflexivity.
  assert (B : Forall recommendsListed
                (planned ++ [RouteClicked walking; Rendered])%list).
  { repeat constructor. }
  pose proof (selection_listed_when_wired _ walking W B) as (L & _).
  repeat split; assumption.
Defined.

(** C3: the body of the error response is [{"detail": ""}]. *)
Lemma empty_detail_is_replaced :
  let s := run initial (filled ++ [PlanClicked])%list in
  let s' := step s (PlanSettled 0 (Rejected (http_error ""))) in
  awaited 0 s = true /\ detailOf (http_error "") = Some (JSON.Str "") /\
  error s' = Some (JSON.Str "Failed to plan route. Please try again.") /\
  error s' <> Some (JSON.Str "").
Proof. vm_compute. repeat split. discriminate. Qed.

(** C3, amended, on the scenario of the specification, where the body of
    the error response is [{"detail": "no route found"}], and on the
    answer to a request that failed validation, where [detail] is a list
    and is stored as it is. *)
Lemma plan_failure_witness :
  let s := run initial (filled ++ [PlanClicked])%list in
  let s' := step s (PlanSettled 0 (Rejected (http_error "no route found"))) in
  let s'' := step s (PlanSettled 0 (Rejected validation_error)) in
  awaited 0 s = true /\
  error s' = Some (JSON.Str "no route found") /\
  routeData s' = None /\ selectedRoute s' = None /\
  JSON.truthy validation_errors = true /\
  error s'' = Some validation_errors.
Proof.
  assert (A : awaited 0 (run initial (filled ++ [PlanClicked])%list) = true)
    by reflexivity.
  pose proof (plan_failure _ 0 (http_error "no route found") A)
    as (_ & Hd & _ & Hr & Hs & _).
  pose proof (plan_failure _ 0 validation_error A) as (Hv & _).
  assert (E := Hd "no route found" eq_refl ltac:(discriminate)).
  assert (E' := Hv validation_errors eq_refl eq_refl).
  split; [exact A|]. split; [exact E|]. split; [exact Hr|].
  split; [exact Hs|]. split; [reflexivity | exact E'].
Defined.

(** A rejection without a response shows the fallback message. *)
Example timeout_message :
  let s := run initial (filled ++ [PlanClicked])%list in
  error (step s (PlanSettled 0 (Rejected no_response)))
  = Some (JSON.Str "Failed to plan route. Please try again.").
Proof. reflexivity. Qed.

(** Outside the events the page offers: were [handlePlanRoute] to run a
    second time before the first call has settled, and the second call
    to settle first, the response of the first would replace that of the
    second.  The handler itself keeps no count of its calls; it is the
    page that never offers this run. *)
Lemma unoffered_overlap :
  let first := plan_of [cycling] in
  let second := plan_of [driving] in
  let es := (filled ++ [PlanClicked; ModesChanged ["driving-car"];
                        PlanClicked; PlanSettled 1 (Fulfilled second)])%list in
  let s := run initial es in
  let s' := step s (PlanSettled 0 (Fulfilled first)) in
  wired initial es = false /\
  inflight s = [0] /\ routeData s = Some second /\
  routeData s' = Some first /\ selectedRoute s' = Some cycling.
Proof. vm_compute. repeat split. Qed.


(** C6 on the scenario of the specification: the recommended route is
    the first option, the user picks the third, the page is redrawn and
    a new plan is started. *)
Lemma selection_reconciliation_witness :
  let response := plan_of [cycling; driving; walking] in
  let s := run initial (filled ++ [PlanClicked])%list in
  let es := [Rendered; StartChanged (Some egmore); Rendered; PlanClicked] in
  let s1 := step s (PlanSettled 0 (Fulfilled response)) in
  let s3 := run (step s1 (RouteClicked walking)) es in
  awaited 0 s = true /\ forallb quiet es = true /\
  selectedRoute s1 = Some cycling /\
  selectedRoute s3 = Some walking.
Proof.
  assert (A : awaited 0 (run initial (filled ++ [PlanClicked])%list) = true)
    by reflexivity.
  assert (Q : forallb quiet
                [Rendered; StartChanged (Some egmore); Rendered; PlanClicked]
              = true) by reflexivity.
  pose proof (selection_reconciliation _ 0
                (plan_of [cycling; driving; walking]) walking _ A Q)
    as (H1 & _ & _ & H3 & _).
  repeat split; assumption.
Defined.

End AppRuns.

(** * Further properties *)

(** ** The location field *)

Section LocationInputMore.
Context {Num : JS.Numbers}.
Import LocationInput LocationInputView.

Ltac split_if :=
  match goal with
  | |- context [if ?b then _ else _] => destruct b
  end.

Lemma run_step (s : State) (e : Event) (es : list Event) :
  run s (e :: es) = run (step s e) es.
Proof. reflexivity. Qed.

Lemma run_snoc (es : list Event) : forall (s : State) (e : Event),
  run s (es ++ [e]) = step (run s es) e.
Proof.
  induction es as [|x es IH]; intros s e; [reflexivity|].
  cbn [app]. rewrite !run_step. apply IH.
Qed.

(** Keystrokes alone reach neither the parent nor the service. *)
Lemma typing_frame (texts : list string) : forall s : State,
  requests (run s (map InputChanged texts)) = requests s /\
  emitted (run s (map InputChanged texts)) = emitted s /\
  inflight (run s (map InputChanged texts)) = inflight s.
Proof.
  induction texts as [|t texts IH]; intros s; [now repeat split|].
  cbn [map]. rewrite run_step. cbn [step].
  destruct (IH (setQuery t s)) as (-> & -> & ->).
  destruct (setQuery_frame t s) as (_ & _ & _ & Hf & Hr & He).
  now rewrite Hf, Hr, He.
Qed.

Lemma setQuery_dropdownSound (q : string) (s : State) :
  dropdownSound s -> dropdownSound (setQuery q s).
Proof.
  unfold dropdownSound, setQuery, searchEffect. intros D.
  destruct (String.eqb (query s) q); [exact D|].
  split_if; cbn; [exact D | discriminate].
Qed.

Lemma closed_dropdownSound (s : State) :
  showResults s = false -> dropdownSound s.
Proof. unfold dropdownSound. intros ->. discriminate. Qed.

Lemma step_dropdownSound (s : State) (e : Event) :
  dropdownSound s -> dropdownSound (step s e).
Proof.
  intros D. destruct e; cbn [step].
  - apply setQuery_dropdownSound. exact D.
  - apply setQuery_dropdownSound. exact D.
  - destruct (searchTimeout s) as [q|]; [|exact D].
    unfold fireTimer. destruct (coordLocation q).
    + apply closed_dropdownSound. unfold syncValue.
      now apply setQuery_closed.
    + exact D.
  - destruct (lookup call (inflight s)); [|exact D].
    unfold dropdownSound, resumeSearch. cbn.
    destruct (searchLocation answer); cbn; [discriminate | intros _; discriminate].
  - apply closed_dropdownSound. unfold handleSelectResult, syncValue.
    now apply setQuery_closed.
  - apply closed_dropdownSound. unfold handleClear, syncValue.
    now apply setQuery_closed.
  - now apply closed_dropdownSound.
Qed.

Lemma setQuery_spinnerSound (q : string) (s : State) :
  spinnerSound s -> spinnerSound (setQuery q s).
Proof.
  unfold spinnerSound.
  destruct (setQuery_frame q s) as (_ & _ & -> & -> & _). auto.
Qed.

Lemma idle_spinnerSound (s : State) : isSearching s = false -> spinnerSound s.
Proof. unfold spinnerSound. intros ->. discriminate. Qed.

Lemma step_spinnerSound (s : State) (e : Event) :
  spinnerSound s -> spinnerSound (step s e).
Proof.
  intros D. destruct e; cbn [step].
  - apply setQuery_spinnerSound. exact D.
  - apply setQuery_spinnerSound. exact D.
  - destruct (searchTimeout s) as [q|]; [|exact D].
    unfold fireTimer. destruct (coordLocation q).
    + apply idle_spinnerSound. unfold syncValue.
      match goal with |- isSearching (setQuery ?t ?x) = _ =>
        destruct (setQuery_frame t x) as (_ & _ & -> & _)
      end. reflexivity.
    + unfold spinnerSound. cbn. intros _.
      destruct (inflight s); discriminate.
  - destruct (lookup call (inflight s)); [|exact D].
    now apply idle_spinnerSound.
  - unfold handleSelectResult, syncValue.
    apply setQuery_spinnerSound.
    refine (setQuery_spinnerSound _ (emit _ s) _). exact D.
  - unfold handleClear, syncValue. apply setQuery_spinnerSound.
    refine (setQuery_spinnerSound "" s D).
  - exact D.
Qed.

(** X2.  However many keystrokes precede it, one firing of the timer
    issues at most one geocoding call, and that call carries the text of
    the last keystroke; the keystrokes themselves issue none and emit
    nothing.  When the last keystroke changed the text, the timer is
    armed for it exactly when it has more than two characters. *)
Theorem keystrokes_fire_one_search
    (es : list Event) (texts : list string) (q : string) :
  let s := run mounted es in
  let s0 := run s (map InputChanged texts) in
  let s1 := step s0 (InputChanged q) in
  let s2 := step s1 TimerFired in
  query s1 = q /\
  requests s1 = requests s /\ emitted s1 = emitted s /\
  (requests s2 = requests s \/ requests s2 = (requests s ++ [q])%list) /\
  (searchTimeout s2 = None \/ requests s2 = requests s) /\
  (query s0 <> q ->
   searchTimeout s1 = if (2 <? String.length q)%nat then Some q else None).
Proof.
  intros s s0 s1 s2.
  destruct (typing_frame texts s) as (Hr & He & _). fold s0 in Hr, He.
  destruct (setQuery_frame q s0) as (Hq & _ & _ & _ & Hr1 & He1).
  assert (G : gated s1).
  { apply step_gated. unfold s0. apply run_gated.
    apply run_gated, mounted_gated. }
  assert (Q : query s1 = q) by exact Hq.
  assert (Rq : requests s1 = requests s) by (unfold s1; cbn [step]; congruence).
  assert (Eq : emitted s1 = emitted s) by (unfold s1; cbn [step]; congruence).
  assert (Tm : query s0 <> q ->
               searchTimeout s1
               = if (2 <? String.length q)%nat then Some q else None).
  { intros Hne. now apply setQuery_timer. }
  unfold s2. clear s2. clearbody s1. clear Hq Hr1 He1.
  split; [exact Q|]. split; [exact Rq|]. split; [exact Eq|].
  split; [|split; [|exact Tm]]; cbn [step].
  - destruct (searchTimeout s1) as [t|] eqn:T; [|left; exact Rq].
    destruct G as [Gt _]. destruct (Gt t T) as [-> _]. rewrite Q.
    unfold fireTimer. destruct (coordLocation q).
    + left. unfold syncValue.
      match goal with |- requests (setQuery ?t ?x) = _ =>
        destruct (setQuery_frame t x) as (_ & _ & _ & _ & -> & _)
      end. exact Rq.
    + right. cbn [requests setInflight setRequests setIsSearching setTimer].
      now rewrite Rq.
  - destruct (searchTimeout s1) as [t|] eqn:T; [|left; exact T].
    unfold fireTimer. destruct (coordLocation t).
    + right. unfold syncValue.
      match goal with |- requests (setQuery ?t ?x) = _ =>
        destruct (setQuery_frame t x) as (_ & _ & _ & _ & -> & _)
      end. exact Rq.
    + left. reflexivity.
Qed.

(** X3.  Whatever has happened to the field, an open dropdown has at
    least one result to show. *)
Theorem open_dropdown_has_results (es : list Event) :
  showResults (run mounted es) = true -> results (run mounted es) <> [].
Proof.
  change (dropdownSound (run mounted es)).
  induction es as [|e es IH] using rev_ind.
  - now apply closed_dropdownSound.
  - rewrite run_snoc. now apply step_dropdownSound.
Qed.

(** X4.  Whatever has happened to the field, the spinner turns only
    while a geocoding call is awaited. *)
Theorem spinner_has_awaited_call (es : list Event) :
  isSearching (run mounted es) = true -> inflight (run mounted es) <> [].
Proof.
  change (spinnerSound (run mounted es)).
  induction es as [|e es IH] using rev_ind.
  - now apply idle_spinnerSound.
  - rewrite run_snoc. now apply step_spinnerSound.
Qed.

(** X5.  The clear button empties the text, passes [null] to the parent,
    empties and closes the dropdown and leaves no timer armed, whatever
    has happened before; a call that is awaited stays awaited. *)
Theorem clear_resets_field (es : list Event) :
  let s := run mounted es in
  let s' := step s ClearClicked in
  query s' = "" /\ value s' = None /\
  emitted s' = (emitted s ++ [None])%list /\
  results s' = [] /\ showResults s' = false /\
  searchTimeout s' = None /\ step s' TimerFired = s' /\
  inflight s' = inflight s /\ requests s' = requests s.
Proof.
  intros s s'.
  assert (G : gated s') by (apply step_gated, run_gated, mounted_gated).
  assert (Q : query s' = "").
  { unfold s'. cbn [step]. unfold handleClear, syncValue.
    match goal with |- query (setQuery ?t ?x) = _ =>
      destruct (setQuery_frame t x) as (-> & _)
    end. reflexivity. }
  assert (T : searchTimeout s' = None).
  { destruct (searchTimeout s') as [t|] eqn:T; [|reflexivity].
    destruct G as [Gt _]. destruct (Gt t T) as [-> L].
    rewrite Q in L. cbn in L. lia. }
  assert (F : value s' = None /\ emitted s' = (emitted s ++ [None])%list /\
              results s' = [] /\ showResults s' = false /\
              inflight s' = inflight s /\ requests s' = requests s).
  { unfold s'. cbn [step]. unfold handleClear, syncValue.
    destruct (setQuery_frame "" s) as (_ & _ & _ & Hf0 & Hr0 & He0).
    match goal with |- context [setQuery ?t ?x] =>
      destruct (setQuery_frame t x) as (_ & Hv & _ & Hf & Hr & He);
      destruct (setQuery_cleared t x eq_refl eq_refl) as (Hc & Hd)
    end.
    rewrite Hv, Hf, Hr, He, Hc, Hd. cbn.
    rewrite He0, Hf0, Hr0. repeat split. }
  clearbody s'. destruct F as (Fv & Fe & Fr & Fs & Ff & Fq).
  repeat split; try assumption.
  cbn [step]. now rewrite T.
Qed.

(** X6.  A geocoding request that fails is taken for one that found
    nothing: the field ends in the very state an empty answer leaves,
    with the list empty, the dropdown closed and the spinner stopped. *)
Theorem failed_search_is_empty_answer (s : State) (call : nat) :
  step s (SearchResolved call None) = step s (SearchResolved call (Some [])) /\
  (lookup call (inflight s) <> None ->
   results (step s (SearchResolved call None)) = [] /\
   showResults (step s (SearchResolved call None)) = false /\
   isSearching (step s (SearchResolved call None)) = false /\
   emitted (step s (SearchResolved call None)) = emitted s).
Proof.
  split; [reflexivity|]. cbn [step].
  destruct (lookup call (inflight s)); [|congruence].
  intros _. repeat split.
Qed.

End LocationInputMore.

(** ** The planning session *)

Section AppMore.
Context {Num : JS.Numbers}.
Import App AppView.

(** The two ways [handlePlanRoute] goes. *)
Lemma handlePlanRoute_cases (s : State) :
  (fieldsMissing s = true /\
   handlePlanRoute s = setError (Some requiredFields) s) \/
  (fieldsMissing s = false /\
   exists a b,
     startLocation s = Some a /\ endLocation s = Some b /\
     handlePlanRoute s =
       setInflight (inflight s ++ [List.length (calls s)])
         (setCalls (calls s ++ [{| startCoords := coords a;
                                   endCoords := coords b;
                                   modes := selectedModes s |}])
            (setError None (setIsLoading true s)))).
Proof.
  unfold fieldsMissing, handlePlanRoute.
  destruct (startLocation s) as [a|], (endLocation s) as [b|],
           (selectedModes s) as [|m ms]; cbn; auto.
  right. split; [reflexivity|]. exists a, b. auto.
Qed.

Lemma planEnabled_fields (s : State) :
  planEnabled s = true -> fieldsMissing s = false /\ isLoading s = false.
Proof.
  unfold planEnabled, fieldsMissing. intros H.
  apply andb_prop in H as [H L]. apply andb_prop in H as [H M].
  apply andb_prop in H as [A B].
  rewrite A, B. cbn. apply negb_true_iff in M, L. auto.
Qed.

(** X7.  With a field missing, [handlePlanRoute] only sets the message:
    no call is made, and a result and a selection on display stay.  With
    all fields present it makes exactly one call, with the coordinates
    written longitude first, and enters the loading state without a
    message. *)
Theorem plan_validation (s : State) :
  (fieldsMissing s = true ->
   handlePlanRoute s = setError (Some requiredFields) s) /\
  (fieldsMissing s = false ->
   exists a b,
     startLocation s = Some a /\ endLocation s = Some b /\
     calls (handlePlanRoute s) =
       (calls s ++ [{| startCoords := JS.toString (lng a) ++ ","
                                       ++ JS.toString (lat a);
                       endCoords := JS.toString (lng b) ++ ","
                                     ++ JS.toString (lat b);
                       modes := selectedModes s |}])%list /\
     inflight (handlePlanRoute s) =
       (inflight s ++ [List.length (calls s)])%list /\
     isLoading (handlePlanRoute s) = true /\
     error (handlePlanRoute s) = None /\
     routeData (handlePlanRoute s) = routeData s /\
     selectedRoute (handlePlanRoute s) = selectedRoute s).
Proof.
  destruct (handlePlanRoute_cases s) as [[M E]|[M (a & b & Ha & Hb & E)]];
    rewrite M; split; try discriminate; intros _; [exact E|].
  exists a, b. rewrite E. repeat split; assumption.
Qed.

(** X8.  The retry action is the plan action: clearing the message first
    changes nothing, since [handlePlanRoute] sets the message on both of
    its ways. *)
Theorem retry_is_plan (s : State) :
  step s RetryClicked = step s PlanClicked.
Proof.
  cbn [step]. unfold handleRetry, handlePlanRoute. cbn.
  destruct (startLocation s), (endLocation s), (selectedModes s); reflexivity.
Qed.

Lemma step_loadingSound (s : State) (e : Event) :
  oneLive s -> loadingSound s -> offered s e = true ->
  loadingSound (step s e).
Proof.
  unfold loadingSound. intros I L O.
  assert (P : forall t, inflight t = [] -> isLoading t = false ->
                        isLoading (handlePlanRoute t) = true
                        <-> inflight (handlePlanRoute t) <> []).
  { intros t Hi Hl.
    destruct (handlePlanRoute_cases t) as [[_ E]|[_ (a & b & _ & _ & E)]];
      rewrite E; cbn; rewrite Hi, ?Hl; cbn.
    - split; [discriminate | intros H; now elim H].
    - split; [discriminate | reflexivity]. }
  assert (Idle : inflight s = [] -> isLoading s = false).
  { intros Hi. destruct (isLoading s); [|reflexivity].
    now destruct (proj1 L eq_refl). }
  destruct e; cbn [step offered] in *; try exact L.
  - apply planEnabled_fields in O as [_ Hl]. apply P; [|exact Hl].
    destruct (inflight s) as [|c l]; [reflexivity|].
    assert (isLoading s = true) by (apply L; discriminate). congruence.
  - rewrite O. unfold awaited in O.
    destruct I as [I|(I & _)]; rewrite I in *; [discriminate|].
    cbn in O. rewrite orb_false_r in O.
    unfold resumePlanRoute.
    destruct o; cbn; rewrite Nat.eqb_sym, O; cbn; split; congruence.
  - unfold handleRetry.
    assert (Hi : inflight s = []).
    { destruct I as [I|(_ & _ & _ & E)]; [exact I|].
      unfold retryOffered in O. rewrite E in O. discriminate. }
    apply P; [exact Hi | now apply Idle].
Qed.

Lemma step_messageSound (s : State) (e : Event) :
  oneLive s -> messageSound s -> offered s e = true ->
  messageSound (step s e).
Proof.
  unfold messageSound. intros I K O.
  destruct e; cbn [step offered] in *; try exact K.
  - apply planEnabled_fields in O as [M _].
    destruct (proj2 (plan_validation s) M) as (a & b & _ & _ & _ & _ & _ & E & _).
    rewrite E. congruence.
  - rewrite O. unfold awaited in O.
    destruct I as [I|(I & _ & _ & E)]; rewrite I in *; [discriminate|].
    destruct o; cbn; [rewrite E; congruence | auto].
  - apply routeOffered_listed in O as (d & Hd & _). cbn.
    intros E. destruct (K E) as [Hn _]. congruence.
  - unfold handleRetry.
    assert (E : routeData s = None /\ selectedRoute s = None).
    { apply K. unfold retryOffered in O. destruct (error s); congruence. }
    destruct (handlePlanRoute_cases (setError None s))
      as [[_ H]|[_ (a & b & _ & _ & H)]]; rewrite H; cbn; [auto | congruence].
Qed.

Lemma step_selectionBacked (s : State) (e : Event) :
  selectionBacked s -> offered s e = true -> selectionBacked (step s e).
Proof.
  unfold selectionBacked. intros K O.
  destruct e; cbn [step offered] in *; try exact K.
  - destruct (handlePlanRoute_frame s) as [-> ->]. exact K.
  - rewrite O. destruct o; cbn; congruence.
  - apply routeOffered_listed in O as (d & Hd & _). cbn. congruence.
  - unfold handleRetry.
    destruct (handlePlanRoute_frame (setError None s)) as [-> ->]. exact K.
Qed.

Lemma wired_snoc (es : list Event) (e : Event) :
  wired initial (es ++ [e]) = true ->
  wired initial es = true /\ offered (run initial es) e = true.
Proof. rewrite wired_app. apply andb_prop. Qed.

Lemma run_snoc_app (es : list Event) (e : Event) (s : State) :
  run s (es ++ [e]) = step (run s es) e.
Proof. unfold run. now rewrite fold_left_app. Qed.

(** X9.  Along the events the page offers, the loading state (and with
    it the disabled plan button) lasts exactly as long as a plan call is
    awaited. *)
Theorem loading_while_awaited (es : list Event) :
  wired initial es = true ->
  (isLoading (run initial es) = true <-> inflight (run initial es) <> []).
Proof.
  change (wired initial es = true -> loadingSound (run initial es)).
  induction es as [|e es IH] using rev_ind; intros W.
  - cbn. split; [discriminate | intros H; now elim H].
  - apply wired_snoc in W as [W O]. rewrite run_snoc_app.
    apply step_loadingSound; [|now apply IH | exact O].
    apply run_oneLive; [now left | exact W].
Qed.

(** X10.  Along the events the page offers, a message is never on
    display together with a result or a selection, and a selection
    always has a result behind it. *)
Theorem message_excludes_result (es : list Event) :
  wired initial es = true ->
  let s := run initial es in
  (error s <> None -> routeData s = None /\ selectedRoute s = None) /\
  (selectedRoute s <> None -> routeData s <> None).
Proof.
  intros W s. subst s.
  change (messageSound (run initial es) /\ selectionBacked (run initial es)).
  revert W. induction es as [|e es IH] using rev_ind; intros W.
  - split; [intros H; now cbn in H | intros H; now cbn in H].
  - apply wired_snoc in W as [W O]. rewrite run_snoc_app.
    destruct (IH W) as [K B]. split.
    + apply step_messageSound; [|exact K | exact O].
      apply run_oneLive; [now left | exact W].
    + now apply step_selectionBacked.
Qed.

End AppMore.

(** ** The mode selector *)

Section ModeSelectorMore.
Context {Num : JS.Numbers}.
Import TransportModeSelector.

Lemma includes_In (l : list string) (m : string) :
  includes l m = true <-> In m l.
Proof.
  unfold includes. rewrite existsb_exists. split.
  - intros (x & Hx & E). apply String.eqb_eq in E. now subst.
  - intros H. exists m. split; [exact H | apply String.eqb_refl].
Qed.

Lemma includes_not_In (l : list string) (m : string) :
  includes l m = false <-> ~ In m l.
Proof.
  rewrite <- includes_In. destruct (includes l m); split; congruence.
Qed.

Lemma filter_other_In (l : list string) (m x : string) :
  In x (filter (fun id => negb (String.eqb id m)) l) <-> In x l /\ x <> m.
Proof.
  rewrite filter_In, negb_true_iff, String.eqb_neq. reflexivity.
Qed.

Lemma filter_absent (l : list string) (m : string) :
  ~ In m l -> filter (fun id => negb (String.eqb id m)) l = l.
Proof.
  induction l as [|x l IH]; intros H; [reflexivity|]. cbn.
  destruct (String.eqb_spec x m) as [->|Hne]; cbn.
  - elim H. now left.
  - rewrite IH; [reflexivity|]. intros Hin. apply H. now right.
Qed.

(** X11.  A click on a mode button flips the membership of that mode in
    the selection and leaves the membership of every other mode. *)
Theorem toggle_flips_one (selectedModes : list string) (modeId x : string) :
  (In modeId (handleModeToggle selectedModes modeId)
   <-> ~ In modeId selectedModes) /\
  (x <> modeId ->
   (In x (handleModeToggle selectedModes modeId) <-> In x selectedModes)).
Proof.
  unfold handleModeToggle.
  destruct (includes selectedModes modeId) eqn:E.
  - apply includes_In in E. split.
    + rewrite filter_other_In. tauto.
    + intros Hne. rewrite filter_other_In. tauto.
  - apply includes_not_In in E. split.
    + rewrite in_app_iff. cbn. tauto.
    + intros Hne. rewrite in_app_iff. cbn. intuition congruence.
Qed.

Lemma toggle_NoDup (l : list string) (m : string) :
  NoDup l -> NoDup (handleModeToggle l m).
Proof.
  intros N. unfold handleModeToggle.
  destruct (includes l m) eqn:E.
  - now apply NoDup_filter.
  - apply includes_not_In in E. apply NoDup_app; [exact N | repeat constructor; auto |].
    intros a Ha [<-|[]]. contradiction.
Qed.

Lemma filter_one_perm (l : list string) (m : string) :
  NoDup l -> In m l ->
  Permutation (filter (fun id => negb (String.eqb id m)) l ++ [m]) l.
Proof.
  induction l as [|x l IH]; intros N H; [destruct H|].
  inversion N as [|? ? Hx N']; subst. cbn.
  destruct (String.eqb_spec x m) as [->|Hne]; cbn.
  - rewrite filter_absent by exact Hx.
    apply Permutation_sym, Permutation_cons_append.
  - constructor. apply IH; [exact N'|]. destruct H; [contradiction | assumption].
Qed.

(** X12.  A selection without duplicates stays so under a click, and two
    clicks on the same button bring back the same modes: in the same
    order when the mode was not selected, with that mode moved to the end
    when it was. *)
Theorem toggle_twice (selectedModes : list string) (modeId : string) :
  NoDup selectedModes ->
  let once := handleModeToggle selectedModes modeId in
  let twice := handleModeToggle once modeId in
  NoDup once /\ NoDup twice /\ Permutation twice selectedModes /\
  (~ In modeId selectedModes -> twice = selectedModes) /\
  (In modeId selectedModes ->
   twice = (filter (fun id => negb (String.eqb id modeId)) selectedModes
            ++ [modeId])%list).
Proof.
  intros N once twice.
  assert (N1 : NoDup once) by now apply toggle_NoDup.
  assert (N2 : NoDup twice) by now apply toggle_NoDup.
  assert (A : ~ In modeId selectedModes -> twice = selectedModes).
  { intros H. unfold twice, once, handleModeToggle.
    rewrite (proj2 (includes_not_In _ _) H).
    assert (I : includes (selectedModes ++ [modeId]) modeId = true).
    { apply includes_In, in_app_iff. right. now left. }
    rewrite I, filter_app, filter_absent by exact H.
    cbn. rewrite String.eqb_refl. cbn. apply app_nil_r. }
  assert (B : In modeId selectedModes ->
              twice = (filter (fun id => negb (String.eqb id modeId))
                         selectedModes ++ [modeId])%list).
  { intros H. unfold twice, once, handleModeToggle.
    rewrite (proj2 (includes_In _ _) H).
    assert (I : includes (filter (fun id => negb (String.eqb id modeId))
                            selectedModes) modeId = false).
    { apply includes_not_In. rewrite filter_other_In. tauto. }
    now rewrite I. }
  repeat split; try assumption.
  destruct (in_dec string_dec modeId selectedModes) as [H|H].
  - rewrite (B H). now apply filter_one_perm.
  - rewrite (A H). reflexivity.
Qed.

Lemma toggles_snoc (l ids : list string) (m : string) :
  toggles l (ids ++ [m]) = handleModeToggle (toggles l ids) m.
Proof. unfold toggles. now rewrite fold_left_app. Qed.

(** X13.  Whatever buttons are clicked, starting from the selection the
    page opens with, the selection has no duplicates and holds only
    identifiers of [transportModes]: at most three of them. *)
Theorem selection_stays_well_formed (ids : list string) :
  incl ids (map id transportModes) ->
  let l := toggles (App.selectedModes App.initial) ids in
  NoDup l /\ incl l (map id transportModes) /\ List.length l <= 3.
Proof.
  intros H l.
  assert (P : NoDup l /\ incl l (map id transportModes)).
  { unfold l. clear l. induction ids as [|m ids IH] using rev_ind.
    - split; [repeat constructor; auto | intros x [<-|[]]; cbn; auto].
    - rewrite toggles_snoc.
      assert (Hm : In m (map id transportModes)).
      { apply H, in_app_iff. right. now left. }
      destruct IH as [N I].
      { intros x Hx. apply H, in_app_iff. now left. }
      split; [now apply toggle_NoDup|].
      intros x Hx. destruct (string_dec x m) as [->|Hne]; [exact Hm|].
      apply I. now apply (toggle_flips_one _ m x). }
  destruct P as [N I]. repeat split; try assumption.
  change 3 with (List.length (map id transportModes)).
  now apply NoDup_incl_length.
Qed.

(** X14.  A click on the only selected mode empties the selection; the
    note under the buttons appears, the plan button is disabled, and a
    call of [handlePlanRoute] only sets the message. *)
Theorem last_mode_deselected (s : App.State) (m : string) :
  App.selectedModes s = [m] ->
  let l := handleModeToggle (App.selectedModes s) m in
  let s' := App.step s (App.ModesChanged l) in
  l = [] /\ warningRendered l = true /\
  App.planEnabled s' = false /\
  App.step s' App.PlanClicked = App.setError (Some App.requiredFields) s'.
Proof.
  intros E l s'.
  assert (L : l = []).
  { unfold l, handleModeToggle, includes. rewrite E. cbn.
    rewrite String.eqb_refl. cbn. reflexivity. }
  unfold s'. rewrite L. repeat split.
  - unfold App.planEnabled. cbn. now rewrite !andb_false_r.
  - cbn [App.step]. apply plan_validation.
    unfold AppView.fieldsMissing. cbn. apply orb_true_r.
Qed.

End ModeSelectorMore.

(** ** The health indicator *)

Section HealthCheckMore.
Import HealthCheck.

(** X15.  Once the check at mount has settled, the indicator is healthy
    with the message of the response, or unhealthy with the fixed
    message when the request failed; the text shown is never empty, and
    a healthy response with an empty message shows the text of a check
    in progress. *)
Theorem health_indicator (outcome : option HealthResponse) :
  let s := afterMount outcome in
  shown s <> "" /\
  (outcome = None -> status s = unhealthy /\ shown s = unreachable) /\
  (forall r, outcome = Some r ->
     status s = healthy /\
     (response_message r <> "" -> shown s = response_message r) /\
     (response_message r = "" -> shown s = pending)).
Proof.
  intros s. subst s. unfold afterMount, shown. repeat split.
  - destruct outcome as [r|]; cbn; [|discriminate].
    destruct (response_message r) eqn:E; cbn; discriminate.
  - now subst.
  - now subst.
  - now subst.
  - subst. cbn. intros Hne. apply truthy_nonempty in Hne. now rewrite Hne.
  - subst. cbn. intros ->. reflexivity.
Qed.

End HealthCheckMore.

(** ** The score card *)

Section EcoScoreCardMore.
Import EcoScoreCard.

Lemma scale_pos (k : nat) : (0 < Num.scale k)%Z.
Proof. unfold Num.scale. apply Z.pow_pos_nonneg; lia. Qed.

Lemma geZ_mono (x y : Num.t) (c : Z) :
  Num.le x y = true -> Num.geZ x c = true -> Num.geZ y c = true.
Proof.
  destruct x as [| | |m1 k1], y as [| | |m2 k2]; cbn; try congruence.
  intros L G. apply Z.leb_le in L, G. apply Z.leb_le.
  pose proof (scale_pos k1). pose proof (scale_pos k2). nia.
Qed.

(** X16.  The text colour and the background colour of a score are
    always of the same hue, and a higher score never gets a worse
    colour; a score that is not a number is shown in red. *)
Theorem score_colours (x y : Num.t) :
  hue (getScoreColor x) = hue (getScoreBgColor x) /\
  (Num.le x y = true ->
   (rank (getScoreColor x) <= rank (getScoreColor y))%nat) /\
  getScoreColor Num.NaN = "text-red-600".
Proof.
  split; [|split; [|reflexivity]].
  - unfold getScoreColor, getScoreBgColor.
    destruct (Num.geZ x 80), (Num.geZ x 60), (Num.geZ x 40); reflexivity.
  - intros L. unfold getScoreColor.
    pose proof (geZ_mono x y 80 L). pose proof (geZ_mono x y 60 L).
    pose proof (geZ_mono x y 40 L).
    destruct (Num.geZ x 80), (Num.geZ x 60), (Num.geZ x 40),
             (Num.geZ y 80), (Num.geZ y 60), (Num.geZ y 40);
      cbn; try lia; intuition congruence.
Qed.

Lemma eqZ_index (aqi : Num.t) (c : nat) :
  Num.eqZ aqi (Z.of_nat c) = true <-> Num.index aqi = Some c.
Proof.
  destruct aqi as [| | |m k]; cbn; try (split; congruence).
  pose proof (scale_pos k) as P. split.
  - intros E. apply Z.eqb_eq in E. subst m.
    rewrite Z.mod_mul by lia. rewrite Z.div_mul by lia. cbn.
    assert (N : (0 <=? Z.of_nat c * Num.scale k)%Z = true)
      by (apply Z.leb_le; nia).
    rewrite N.
    now rewrite Nat2Z.id.
  - destruct (m mod Num.scale k =? 0)%Z eqn:M; [|discriminate].
    destruct (0 <=? m)%Z eqn:N; [|discriminate]. cbn.
    intros [= <-]. apply Z.eqb_eq in M. apply Z.leb_le in N.
    apply Z.eqb_eq.
    rewrite Z2Nat.id by (apply Z.div_pos; lia).
    rewrite Z.mul_comm. apply Z.div_exact; lia.
Qed.

Lemma eqZ_leZ (aqi : Num.t) (c d : Z) :
  Num.eqZ aqi c = true -> Num.leZ aqi d = (c <=? d)%Z.
Proof.
  destruct aqi as [| | |m k]; cbn; try congruence.
  intros E. apply Z.eqb_eq in E. subst m. pose proof (scale_pos k).
  destruct (Z.leb_spec c d); [apply Z.leb_le | apply Z.leb_gt]; nia.
Qed.

Lemma eqZ_unique (aqi : Num.t) (c d : Z) :
  Num.eqZ aqi c = true -> Num.eqZ aqi d = (c =? d)%Z.
Proof.
  destruct aqi as [| | |m k]; cbn; try congruence.
  intros E. apply Z.eqb_eq in E. subst m. pose proof (scale_pos k).
  destruct (Z.eqb_spec c d); [apply Z.eqb_eq | apply Z.eqb_neq]; nia.
Qed.

(** X17.  An air quality index of 1 or 2 is labelled Good or Fair and shown
    in green, 3 is Moderate in yellow, 4 and 5 are Poor and Very Poor in
    red.  Every other value, 0 included, is labelled Unknown, and the
    label is never empty. *)
Theorem aqi_label_and_colour (aqi : Num.t) :
  (Num.eqZ aqi 1 = true ->
   getAQILabel aqi = "Good" /\ getAQIColor aqi = "text-green-600") /\
  (Num.eqZ aqi 2 = true ->
   getAQILabel aqi = "Fair" /\ getAQIColor aqi = "text-green-600") /\
  (Num.eqZ aqi 3 = true ->
   getAQILabel aqi = "Moderate" /\ getAQIColor aqi = "text-yellow-600") /\
  (Num.eqZ aqi 4 = true ->
   getAQILabel aqi = "Poor" /\ getAQIColor aqi = "text-red-600") /\
  (Num.eqZ aqi 5 = true ->
   getAQILabel aqi = "Very Poor" /\ getAQIColor aqi = "text-red-600") /\
  (Num.eqZ aqi 1 = false -> Num.eqZ aqi 2 = false ->
   Num.eqZ aqi 3 = false -> Num.eqZ aqi 4 = false ->
   Num.eqZ aqi 5 = false -> getAQILabel aqi = "Unknown") /\
  getAQILabel aqi <> "".
Proof.
  assert (K : forall c : nat, Num.eqZ aqi (Z.of_nat c) = true ->
    getAQILabel aqi = JS.or_else (nth_error labels c) "Unknown" /\
    getAQIColor aqi =
      if (Z.of_nat c <=? 2)%Z then "text-green-600"
      else if (Z.of_nat c =? 3)%Z then "text-yellow-600"
      else "text-red-600").
  { intros c E. unfold getAQILabel, getAQIColor.
    rewrite (eqZ_leZ aqi _ 2 E), (eqZ_unique aqi _ 3 E).
    apply eqZ_index in E. rewrite E.
    split; [reflexivity|]. now rewrite Z.eqb_sym. }
  split; [intros E; exact (K 1%nat E)|].
  split; [intros E; exact (K 2%nat E)|].
  split; [intros E; exact (K 3%nat E)|].
  split; [intros E; exact (K 4%nat E)|].
  split; [intros E; exact (K 5%nat E)|].
  split.
  - intros E1 E2 E3 E4 E5. unfold getAQILabel.
    destruct (Num.index aqi) as [i|] eqn:I; [|reflexivity].
    apply eqZ_index in I.
    destruct i as [|[|[|[|[|[|i]]]]]]; cbn in I; try congruence; try reflexivity.
    cbn. now destruct i.
  - unfold getAQILabel.
    destruct (Num.index aqi) as [i|]; [|discriminate].
    destruct i as [|[|[|[|[|[|i]]]]]]; cbn; try discriminate.
    destruct i; discriminate.
Qed.

End EcoScoreCardMore.

(** ** The route lines *)

Section RouteLayerMore.
Import RouteLayer.

Lemma stylesFrom_selected (sel : option RouteOption) (routes : list RouteOption) :
  forall i,
    List.length (filter isSelectedStyle (stylesFrom sel i routes))
    = List.length (filter (isSelected sel) routes).
Proof.
  induction routes as [|r routes IH]; intros i; [reflexivity|].
  cbn [stylesFrom filter]. unfold styleOf at 1.
  destruct (isSelected sel r); cbn.
  - now rewrite IH.
  - destruct (i =? 0)%nat; cbn; apply IH.
Qed.

Lemma no_mode_no_selection (r : RouteOption) (routes : list RouteOption) :
  ~ In (mode r) (map mode routes) ->
  filter (isSelected (Some r)) routes = [].
Proof.
  induction routes as [|x routes IH]; intros H; [reflexivity|].
  cbn. destruct (String.eqb_spec (mode r) (mode x)) as [E|_].
  - elim H. left. now symmetry.
  - apply IH. intros Hin. apply H. now right.
Qed.

Lemma styles_without_selection (routes : list RouteOption) : forall i,
  filter isSelectedStyle (stylesFrom None i routes) = [] /\
  List.length (stylesFrom None i routes) = List.length routes /\
  Forall (fun st => st = defaultStyle) (stylesFrom None (S i) routes).
Proof.
  induction routes as [|x routes IH]; intros i.
  - repeat split. constructor.
  - destruct (IH (S i)) as (F & L & D). cbn [stylesFrom]. repeat split.
    + unfold styleOf. cbn [isSelected]. destruct (i =? 0)%nat; cbn; exact F.
    + cbn. now rewrite L.
    + constructor; [reflexivity|]. apply IH.
Qed.

(** X18.  When the modes of the routes are distinct and the selected
    route is one of them, exactly one line is drawn in the style of the
    selection; without a selection none is, the first line is drawn as
    the recommended one and every other line in the default style. *)
Theorem one_line_is_selected (routes : list RouteOption) (r : RouteOption) :
  NoDup (map mode routes) -> In r routes ->
  List.length (filter isSelectedStyle (styles (Some r) routes)) = 1%nat /\
  filter isSelectedStyle (styles None routes) = [] /\
  List.length (styles None routes) = List.length routes /\
  hd_error (styles None routes) = Some recommendedStyle /\
  Forall (fun st => st = defaultStyle) (tl (styles None routes)).
Proof.
  intros N H. split; [|split; [|split; [|split]]].
  - unfold styles. rewrite stylesFrom_selected.
    induction routes as [|x routes IH]; [destruct H|].
    cbn in N. inversion N as [|? ? Hx N']; subst. cbn [filter].
    destruct H as [->|H].
    + cbn [isSelected]. rewrite String.eqb_refl. cbn.
      now rewrite no_mode_no_selection.
    + cbn [isSelected]. destruct (String.eqb_spec (mode r) (mode x)) as [E|_].
      * elim Hx. rewrite <- E. now apply in_map.
      * now apply IH.
  - apply styles_without_selection.
  - apply styles_without_selection.
  - destruct routes; [destruct H | reflexivity].
  - destruct routes as [|x routes]; [constructor|].
    cbn. apply styles_without_selection.
Qed.

End RouteLayerMore.

(** ** The further properties on sample runs *)

Section MoreRuns.
Import Sample.

(** X1 on a negative latitude with a fraction. *)
Lemma coordMatch_spec_witness :
  coordMatch "-7.5, 80" = Some ("-7.5", "80").
Proof.
  apply (proj2 (coordMatch_spec "-7.5, 80" "-7.5" "80")).
  exists true, "7", (Some "5"), " ", false, "80", None.
  repeat split.
Defined.

(** X2 on the keystrokes c, ch, che in an empty field. *)
Lemma keystrokes_fire_one_search_witness :
  let s1 := LocationInput.run LocationInput.mounted
              (map LocationInput.InputChanged ["c"; "ch"; "che"]) in
  LocationInput.query s1 = "che" /\
  LocationInput.searchTimeout s1 = Some "che" /\
  LocationInput.requests s1 = [].
Proof.
  pose proof (keystrokes_fire_one_search [] ["c"; "ch"] "che")
    as (Hq & Hr & _ & _ & _ & Ht).
  cbn zeta in Hq, Hr, Ht.
  split; [exact Hq|]. split; [|exact Hr].
  apply Ht. vm_compute. discriminate.
Defined.

(** X3 once an answer with one result has arrived. *)
Lemma open_dropdown_has_results_witness :
  let es := [LocationInput.InputChanged "che"; LocationInput.TimerFired;
             LocationInput.SearchResolved 0 (Some [hit "Chennai"])] in
  LocationInput.showResults (LocationInput.run LocationInput.mounted es) = true /\
  LocationInput.results (LocationInput.run LocationInput.mounted es) <> [].
Proof.
  split; [reflexivity|].
  apply (open_dropdown_has_results
           [LocationInput.InputChanged "che"; LocationInput.TimerFired;
            LocationInput.SearchResolved 0 (Some [hit "Chennai"])]).
  reflexivity.
Defined.

(** X4 while the search for che is awaited. *)
Lemma spinner_has_awaited_call_witness :
  let es := [LocationInput.InputChanged "che"; LocationInput.TimerFired] in
  LocationInput.isSearching (LocationInput.run LocationInput.mounted es) = true /\
  LocationInput.inflight (LocationInput.run LocationInput.mounted es) <> [].
Proof.
  split; [reflexivity|].
  apply (spinner_has_awaited_call
           [LocationInput.InputChanged "che"; LocationInput.TimerFired]).
  reflexivity.
Defined.

(** X6 on the search for che. *)
Lemma failed_search_is_empty_answer_witness :
  let s := LocationInput.run LocationInput.mounted
             [LocationInput.InputChanged "che"; LocationInput.TimerFired] in
  let s' := LocationInput.step s (LocationInput.SearchResolved 0 None) in
  LocationInput.lookup 0 (LocationInput.inflight s) <> None /\
  LocationInput.results s' = [] /\ LocationInput.isSearching s' = false.
Proof.
  assert (L : LocationInput.lookup 0
                (LocationInput.inflight
                   (LocationInput.run LocationInput.mounted
                      [LocationInput.InputChanged "che";
                       LocationInput.TimerFired])) <> None)
    by (vm_compute; discriminate).
  pose proof (failed_search_is_empty_answer
                (LocationInput.run LocationInput.mounted
                   [LocationInput.InputChanged "che"; LocationInput.TimerFired])
                0) as [_ H].
  destruct (H L) as (Hr & _ & Hi & _).
  repeat split; assumption.
Defined.

(** X7 on the page as it opens, and with both fields filled in. *)
Lemma plan_validation_witness :
  let s := App.run App.initial filled in
  AppView.fieldsMissing App.initial = true /\
  App.calls (App.handlePlanRoute App.initial) = [] /\
  AppView.fieldsMissing s = false /\
  map App.startCoords (App.calls (App.handlePlanRoute s))
  = ["80.2707,13.0827"].
Proof.
  pose proof (plan_validation App.initial) as [H0 _].
  pose proof (plan_validation (App.run App.initial filled)) as [_ H1].
  split; [reflexivity|]. split; [now rewrite (H0 eq_refl)|].
  split; [reflexivity|].
  destruct (H1 eq_refl) as (a & b & Ha & _ & Hc & _).
  rewrite Hc. injection Ha as <-. reflexivity.
Defined.

(** X9 while the first plan call is awaited. *)
Lemma loading_while_awaited_witness :
  let es := (filled ++ [App.PlanClicked])%list in
  App.wired App.initial es = true /\
  App.inflight (App.run App.initial es) <> [] /\
  App.isLoading (App.run App.initial es) = true.
Proof.
  assert (W : App.wired App.initial (filled ++ [App.PlanClicked])%list = true)
    by reflexivity.
  assert (N : App.inflight (App.run App.initial
                              (filled ++ [App.PlanClicked])%list) <> [])
    by (vm_compute; discriminate).
  split; [exact W|]. split; [exact N|].
  now apply (loading_while_awaited _ W).
Defined.

(** X10 after a rejected plan call. *)
Lemma message_excludes_result_witness :
  let es := (planned ++ [App.PlanClicked;
                         App.PlanSettled 1 (App.Rejected no_response)])%list in
  App.wired App.initial es = true /\
  App.error (App.run App.initial es) <> None /\
  App.routeData (App.run App.initial es) = None /\
  App.selectedRoute (App.run App.initial es) = None.
Proof.
  assert (W : App.wired App.initial
                (planned ++ [App.PlanClicked;
                             App.PlanSettled 1 (App.Rejected no_response)])%list
              = true) by reflexivity.
  assert (E : App.error (App.run App.initial
                (planned ++ [App.PlanClicked;
                             App.PlanSettled 1 (App.Rejected no_response)])%list)
              <> None) by (vm_compute; discriminate).
  pose proof (message_excludes_result _ W) as [H _].
  destruct (H E) as [Hd Hs]. repeat split; assumption.
Defined.

(** X11 on a click on the driving button when cycling is selected. *)
Lemma toggle_flips_one_witness :
  let l := TransportModeSelector.handleModeToggle
             ["cycling-regular"] "driving-car" in
  "cycling-regular" <> "driving-car" /\
  In "driving-car" l /\ In "cycling-regular" l.
Proof.
  assert (D : "cycling-regular" <> "driving-car") by discriminate.
  pose proof (toggle_flips_one ["cycling-regular"] "driving-car"
                "cycling-regular") as [H1 H2].
  split; [exact D|]. split.
  - apply H1. intros [H|[]]. discriminate H.
  - apply (H2 D). now left.
Defined.

(** X12 on two clicks on the driving button. *)
Lemma toggle_twice_witness :
  let l := ["driving-car"; "cycling-regular"] in
  NoDup l /\
  TransportModeSelector.handleModeToggle
    (TransportModeSelector.handleModeToggle l "driving-car") "driving-car"
  = ["cycling-regular"; "driving-car"].
Proof.
  assert (N : NoDup ["driving-car"; "cycling-regular"]).
  { constructor; [intros [H|[]]; discriminate H|].
    constructor; [intros []|constructor]. }
  pose proof (toggle_twice ["driving-car"; "cycling-regular"] "driving-car" N)
    as (_ & _ & _ & _ & H).
  split; [exact N|]. cbn zeta in H. rewrite H; [reflexivity | now left].
Defined.

(** X13 on four clicks. *)
Lemma selection_stays_well_formed_witness :
  let ids := ["driving-car"; "cycling-regular"; "foot-walking"; "driving-car"] in
  incl ids (map TransportModeSelector.id TransportModeSelector.transportModes) /\
  NoDup (TransportModeSelector.toggles ["cycling-regular"] ids) /\
  TransportModeSelector.toggles ["cycling-regular"] ids = ["foot-walking"].
Proof.
  assert (I : incl ["driving-car"; "cycling-regular"; "foot-walking";
                    "driving-car"]
                (map TransportModeSelector.id
                   TransportModeSelector.transportModes)).
  { intros x H. cbn in *. intuition. }
  pose proof (selection_stays_well_formed (Num := Decimal.numbers) _ I)
    as (N & _).
  split; [exact I|]. split; [exact N | reflexivity].
Defined.

(** X14 on the page as it opens, where cycling is the only mode. *)
Lemma last_mode_deselected_witness :
  let s' := App.step App.initial
              (App.ModesChanged
                 (TransportModeSelector.handleModeToggle
                    (App.selectedModes App.initial) "cycling-regular")) in
  App.selectedModes App.initial = ["cycling-regular"] /\
  App.selectedModes s' = [] /\ App.planEnabled s' = false.
Proof.
  pose proof (last_mode_deselected App.initial "cycling-regular" eq_refl)
    as (L & _ & P & _).
  cbn zeta in L, P. split; [reflexivity|]. split; [|exact P].
  cbn [App.step App.selectedModes App.setSelectedModes]. exact L.
Defined.

(** X15 on a healthy response. *)
Lemma health_indicator_witness :
  let r := {| HealthCheck.status_text := "ok";
              HealthCheck.response_message := "Eco-MCP API is running" |} in
  HealthCheck.response_message r <> "" /\
  HealthCheck.status (HealthCheck.afterMount (Some r)) = HealthCheck.healthy /\
  HealthCheck.shown (HealthCheck.afterMount (Some r)) = "Eco-MCP API is running".
Proof.
  assert (N : "Eco-MCP API is running" <> "") by discriminate.
  pose proof (health_indicator
                (Some {| HealthCheck.status_text := "ok";
                         HealthCheck.response_message :=
                           "Eco-MCP API is running" |})) as (_ & _ & H).
  destruct (H _ eq_refl) as (Hs & Hm & _).
  split; [exact N|]. split; [exact Hs | exact (Hm N)].
Defined.

(** X16 on the scores 55.5 and 85. *)
Lemma score_colours_witness :
  let x := Num.Fin 555 1 in
  let y := Num.ofZ 85 in
  Num.le x y = true /\
  (EcoScoreCard.rank (EcoScoreCard.getScoreColor x)
   <= EcoScoreCard.rank (EcoScoreCard.getScoreColor y))%nat /\
  EcoScoreCard.getScoreColor x = "text-orange-600" /\
  EcoScoreCard.getScoreBgColor y = "bg-green-100".
Proof.
  pose proof (score_colours (Num.Fin 555 1) (Num.ofZ 85)) as (_ & H & _).
  split; [reflexivity|]. split; [exact (H eq_refl)|]. split; reflexivity.
Defined.

(** X17 on the index 3, written 3.0. *)
Lemma aqi_label_and_colour_witness :
  let aqi := Num.Fin 30 1 in
  Num.eqZ aqi 3 = true /\
  EcoScoreCard.getAQILabel aqi = "Moderate" /\
  EcoScoreCard.getAQIColor aqi = "text-yellow-600".
Proof.
  pose proof (aqi_label_and_colour (Num.Fin 30 1)) as (_ & _ & H & _).
  split; [reflexivity | exact (H eq_refl)].
Defined.

(** X18 on the three options with walking selected. *)
Lemma one_line_is_selected_witness :
  let routes := [cycling; driving; walking] in
  NoDup (map mode routes) /\ In walking routes /\
  List.length (filter RouteLayer.isSelectedStyle
                 (RouteLayer.styles (Some walking) routes)) = 1%nat /\
  RouteLayer.styles (Some walking) routes
  = [RouteLayer.recommendedStyle; RouteLayer.defaultStyle;
     RouteLayer.selectedStyle].
Proof.
  assert (N : NoDup (map mode [cycling; driving; walking])).
  { cbn. constructor; [intros [H|[H|[]]]; discriminate H|].
    constructor; [intros [H|[]]; discriminate H|].
    constructor; [intros []|constructor]. }
  assert (I : In walking [cycling; driving; walking]) by (right; right; now left).
  pose proof (one_line_is_selected _ walking N I) as (H & _).
  split; [exact N|]. split; [exact I|]. split; [exact H | reflexivity].
Defined.

End MoreRuns.

(** ** Coordinates typed in another form than they are printed in *)

Section CoordinateText.
Context {Num : JS.Numbers}.
Import LocationInput.

(** X19.  For coordinates whose printed form is again accepted by the
    pattern and read back as the same numbers: when the timer fires, the
    text of the field becomes the printed form.  If that is the text
    that was typed, nothing more happens.  If it is not, the timer is
    armed again for the printed form, its firing passes the same
    location to [onChange] a second time, and then the field is at rest;
    the geocoding service is never called. *)
Theorem coordinate_text_settles (s : State) (q g1 g2 : string) :
  let a := JS.parseFloat g1 in
  let b := JS.parseFloat g2 in
  let l := {| lat := a; lng := b; address := Some (coordText a b) |} in
  searchTimeout s = Some q -> query s = q ->
  coordMatch q = Some (g1, g2) -> inRange a b = true ->
  coordMatch (coordText a b) = Some (JS.toString a, JS.toString b) ->
  JS.parseFloat (JS.toString a) = a -> JS.parseFloat (JS.toString b) = b ->
  let s1 := step s TimerFired in
  let s2 := step s1 TimerFired in
  query s1 = coordText a b /\ emitted s1 = (emitted s ++ [Some l])%list /\
  (q = coordText a b -> searchTimeout s1 = None) /\
  (q <> coordText a b ->
   searchTimeout s1 = Some (coordText a b) /\
   emitted s2 = (emitted s ++ [Some l; Some l])%list /\
   query s2 = coordText a b /\ searchTimeout s2 = None /\
   requests s2 = requests s).
Proof.
  intros a b l T Q M R M' Pa Pb s1 s2.
  assert (C : coordLocation q = Some l).
  { unfold coordLocation. rewrite M. fold a b. now rewrite R. }
  assert (C' : coordLocation (coordText a b) = Some l).
  { unfold coordLocation. rewrite M', Pa, Pb. now rewrite R. }
  assert (D : displayText (Some l) = coordText a b).
  { cbn. now destruct (JS.truthy (coordText a b)). }
  set (t := setIsSearching false
              (setShowResults false
                 (setResults [] (emit (Some l)
                    (setIsSearching true (setTimer None s)))))).
  assert (E1 : s1 = setQuery (coordText a b) (setValue (Some l) t)).
  { unfold s1. cbn [step]. rewrite T. unfold fireTimer. rewrite C.
    unfold syncValue. now rewrite D. }
  clearbody s1.
  destruct (setQuery_frame (coordText a b) (setValue (Some l) t))
    as (Hq & _ & _ & _ & Hr & He).
  rewrite <- E1 in Hq, Hr, He.
  split; [exact Hq|]. split; [exact He|]. split.
  - intros ->. rewrite E1.
    replace (setQuery (coordText a b) (setValue (Some l) t))
      with (setValue (Some l) t); [reflexivity|].
    symmetry. unfold setQuery.
    change (query (setValue (Some l) t)) with (query s).
    now rewrite Q, String.eqb_refl.
  - intros Hne.
    assert (T1 : searchTimeout s1 = Some (coordText a b)).
    { rewrite E1, setQuery_timer.
      - apply coordMatch_length in M'.
        destruct (Nat.ltb_spec 2 (String.length (coordText a b)));
          [reflexivity | lia].
      - change (query (setValue (Some l) t)) with (query s). now rewrite Q. }
    split; [exact T1|].
    set (u := setIsSearching false
                (setShowResults false
                   (setResults [] (emit (Some l)
                      (setIsSearching true (setTimer None s1)))))).
    assert (E2 : s2 = setValue (Some l) u).
    { unfold s2. cbn [step]. rewrite T1. unfold fireTimer. rewrite C'.
      unfold syncValue. rewrite D. unfold setQuery.
      cbn [query setValue setIsSearching setShowResults setResults emit
           setEmitted setTimer u].
      now rewrite Hq, String.eqb_refl. }
    rewrite E2. subst u t. cbn in He, Hr |- *. rewrite He, Hq, Hr.
    rewrite <- app_assoc. repeat split.
Qed.

End CoordinateText.

Section CoordinateTextRun.
Import LocationInput.

(** X19 on the text 13.050,80.27, which is printed 13.05, 80.27. *)
Lemma coordinate_text_settles_witness :
  let s := step mounted (InputChanged "13.050,80.27") in
  let s2 := step (step s TimerFired) TimerFired in
  searchTimeout s = Some "13.050,80.27" /\
  coordMatch "13.050,80.27" = Some ("13.050", "80.27") /\
  "13.050,80.27" <> "13.05, 80.27" /\
  query s2 = "13.05, 80.27" /\ List.length (emitted s2) = 2%nat /\
  searchTimeout s2 = None /\ requests s2 = [].
Proof.
  assert (N : "13.050,80.27" <> "13.05, 80.27") by discriminate.
  pose proof (coordinate_text_settles
                (step mounted (InputChanged "13.050,80.27"))
                "13.050,80.27" "13.050" "80.27"
                eq_refl eq_refl eq_refl eq_refl eq_refl eq_refl eq_refl)
    as (_ & _ & _ & H).
  destruct (H N) as (_ & He & Hq & Ht & Hr).
  split; [reflexivity|]. split; [reflexivity|]. split; [exact N|].
  split; [exact Hq|]. split; [now rewrite He|]. split; [exact Ht | exact Hr].
Defined.

End CoordinateTextRun.
